(** * airsight: gaze conditioning and dwell engine

    A shallow embedding of [src/main.py] (GazeSmoother, DwellState,
    ScrollController, EyeTrackerController) and of the hit-testing part of
    [src/overlay.py] (CircularMenuOverlay).

    Python floats are idealised as exact rationals ([Q]); equalities between
    computed coordinates are therefore stated with [==] ([Qeq]) where the
    value is the result of arithmetic, and with Leibniz equality where the
    code hands back an object it already held.  Strings-or-None values
    (zones, menu actions) are [option string]. *)

From Stdlib Require Import QArith Qminmax Qround Qabs Lqa Lia.
From Stdlib Require Import ZArith List String Bool.
From Stdlib Require Import Reals Qreals Lra.
From Stdlib Require Import NArith.
From Stdlib Require Strings.Byte.
Import ListNotations.

Open Scope Q_scope.

(** Linear arithmetic over the rationals and over the reals. *)
Ltac qlra := Lqa.lra.
Ltac qnra := Lqa.nra.
Ltac rlra := Lra.lra.
Ltac rnra := Lra.nra.

(** ** Numeric helpers *)

Definition point : Type := (Q * Q)%type.

Definition Qltb (a b : Q) : bool := negb (Qle_bool b a).
Definition Qgeb (a b : Q) : bool := Qle_bool b a.

(** np.array(p) - np.array(q) *)
Definition pt_sub (p q : point) : point := (fst p - fst q, snd p - snd q).

(** a * np.array(p) *)
Definition pt_scale (a : Q) (p : point) : point := (a * fst p, a * snd p).

Definition pt_add (p q : point) : point := (fst p + fst q, snd p + snd q).

(** Coordinate-wise rational equality of two points. *)
Definition pt_eq (p q : point) : Prop := fst p == fst q /\ snd p == snd q.

(** The squared Euclidean length of a vector. *)
Definition sq_norm (v : point) : Q := fst v * fst v + snd v * snd v.

(** [np.linalg.norm(v) > r], decided without the square root: the length
    of [v] exceeds [r] when [r] is negative or when [r*r < |v|^2].
    [norm_gt_sqrt] below relates it to the real square root. *)
Definition norm_gt (v : point) (r : Q) : bool :=
  Qltb r 0 || Qltb (r * r) (sq_norm v).

(** np.clip(a, lo, hi) = minimum(maximum(a, lo), hi) *)
Definition clip (a lo hi : Q) : Q := Qmin (Qmax a lo) hi.

(** ** GazeSmoother *)

Module GazeSmoother.

Record t : Type := mk {
  alpha : Q;
  outlier_px : Q;
  last : option point
}.

(** __init__(alpha, outlier_px) *)
Definition init (a o : Q) : t := mk a o None.

Definition set_last (s : t) (p : point) : t :=
  mk (alpha s) (outlier_px s) (Some p).

(** update(point): the returned point and the smoother afterwards. *)
Definition update (s : t) (p : point) : point * t :=
  match last s with
  | None => (p, set_last s p)
  | Some l =>
      if norm_gt (pt_sub p l) (outlier_px s) then (l, s)
      else
        let smoothed :=
          pt_add (pt_scale (alpha s) p) (pt_scale (1 - alpha s) l) in
        (smoothed, set_last s smoothed)
  end.

End GazeSmoother.

(** ** Values shared by the controller *)

(** A zone name or a menu action name: a Python [str] or [None]. *)
Definition name : Type := option string.

(** Python's [==] on str-or-None values ([!=] is its negation). *)
Definition name_eqb (a b : name) : bool :=
  match a, b with
  | None, None => true
  | Some x, Some y => String.eqb x y
  | _, _ => false
  end.

(** int(q) for a float: truncation towards zero. *)
Definition py_int (q : Q) : Z := Z.quot (Qnum q) (Zpos (Qden q)).

Definition vec3 : Type := (Q * Q * Q)%type.

(** A 2x3 matrix, as its two rows. *)
Definition mat23 : Type := (vec3 * vec3)%type.

(** A 3x2 matrix, as its three rows. *)
Definition mat32 : Type := ((Q * Q) * (Q * Q) * (Q * Q))%type.

(** matrix.T for a 3x2 matrix *)
Definition transpose (m : mat32) : mat23 :=
  let '(r0, r1, r2) := m in
  ((fst r0, fst r1, fst r2), (snd r0, snd r1, snd r2)).

(** np.dot(row, vec) *)
Definition dot3 (r v : vec3) : Q :=
  let '(a, b, c) := r in
  let '(x, y, z) := v in
  a * x + b * y + c * z.

(** The library routines the program calls and does not define:
    [np.linalg.lstsq(A, B, rcond=None)[0]] for an n x 3 matrix [A] and an
    n x 2 matrix [B], and Qt's [qCos] and [qSin]. *)
Class Libs : Type := {
  lstsq : list vec3 -> list (Q * Q) -> mat32;
  qCos : Q -> Q;
  qSin : Q -> Q
}.

(** What a call hands back to its caller: every [return] of the modelled
    methods without a value gives [None]; [raise] gives the message. *)
Inductive outcome : Type :=
| ReturnsNone
| Raises (msg : string).

(** Calls into the operating system and the file system, in order. *)
Inductive event : Type :=
| MouseEvent (flags dx dy data extra : Z)   (* windll.user32.mouse_event *)
| KeybdEvent (vk scan flags extra : Z)      (* windll.user32.keybd_event *)
| WriteConfig (matrix : mat23).             (* json.dump to config.json  *)

Definition WHEEL_DELTA : Z := 120.
Definition VK_SHIFT : Z := 16.
Definition KEYEVENTF_KEYUP : Z := 2.

(** ** DwellState *)

Record DwellState : Type := mkDwell {
  active_zone : name;
  start_ts : Q;
  last_fire_ts : Q
}.

(** DwellState() with the dataclass defaults *)
Definition DwellState_default : DwellState := mkDwell None 0 0.

(** ** ScrollController *)

Module ScrollController.

Record t : Type := mk {
  amount : Z;
  interval_ms : Z
}.

Definition init (amount interval_ms : Q) : t :=
  mk (py_int amount) (py_int interval_ms).

(** scroll(delta): one wheel event; [0x0800] is 2048. *)
Definition scroll (delta : Z) : list event :=
  [MouseEvent 2048 0 0 delta 0].

Definition scroll_up (s : t) : list event := scroll (amount s).

Definition scroll_down (s : t) : list event := scroll (- amount s).

Definition scroll_right (s : t) : list event :=
  [KeybdEvent VK_SHIFT 0 0 0]
    ++ scroll (- amount s)
    ++ [KeybdEvent VK_SHIFT 0 KEYEVENTF_KEYUP 0].

End ScrollController.

(** ** CircularMenuOverlay (overlay.py) *)

Module CircularMenuOverlay.

Record t : Type := mk {
  radius : Q;
  expanded : bool;
  actions : list string;
  hover_action : name;
  pos_x : Z;      (* self.pos().x() *)
  pos_y : Z;
  width : Z;      (* self.width() *)
  height : Z
}.

(** __init__(radius=28): a 200x200 widget moved to the right edge of the
    primary screen, at mid height; [sw] and [sh] are the geometry of that
    screen as Qt reports it. *)
Definition init (sw sh : Z) : t :=
  mk 28 false ["pause"; "resume"; "recalibrate"; "exit"]%string None
     (sw - 200 - 20) ((sh - 200) / 2)%Z 200 200.

Definition screen_center (o : t) : point :=
  (inject_Z (pos_x o) + inject_Z (width o) / 2,
   inject_Z (pos_y o) + inject_Z (height o) / 2).

Section HitTest.
Context {L : Libs}.

(** The loop of [action_at] from index [i] on. *)
Fixpoint action_scan (cx cy ring_radius angle_step sx sy : Q)
    (i : nat) (acts : list string) : name :=
  match acts with
  | [] => None
  | action :: rest =>
      let angle_deg := inject_Z (Z.of_nat i) * angle_step - 90 in
      let radians := angle_deg * (314159 # 100000) / 180 in
      let x := cx + ring_radius * qCos radians in
      let y := cy + ring_radius * qSin radians in
      if Qle_bool ((sx - x) * (sx - x) + (sy - y) * (sy - y)) (20 * 20)
      then Some action
      else action_scan cx cy ring_radius angle_step sx sy (S i) rest
  end.

Definition action_at (o : t) (screen_x screen_y : Q) : name :=
  if negb (expanded o) then None
  else
    let '(cx, cy) := screen_center o in
    let ring_radius := radius o + 36 in
    let angle_step :=
      360 / inject_Z (Z.max 1 (Z.of_nat (List.length (actions o)))) in
    action_scan cx cy ring_radius angle_step screen_x screen_y 0 (actions o).

End HitTest.

Definition is_in_base_circle (o : t) (screen_x screen_y : Q) : bool :=
  let '(cx, cy) := screen_center o in
  Qle_bool ((screen_x - cx) * (screen_x - cx)
            + (screen_y - cy) * (screen_y - cy))
           (radius o * radius o).

Definition set_expanded (o : t) (b : bool) : t :=
  mk (radius o) b (actions o) (hover_action o)
     (pos_x o) (pos_y o) (width o) (height o).

(** toggle_expand(expand=None) *)
Definition toggle_expand (o : t) (expand : option bool) : t :=
  match expand with
  | None => set_expanded o (negb (expanded o))
  | Some b => set_expanded o b
  end.

Definition set_hover_action (o : t) (action_name : name) : t :=
  if negb (name_eqb (hover_action o) action_name)
  then mk (radius o) (expanded o) (actions o) action_name
          (pos_x o) (pos_y o) (width o) (height o)
  else o.

End CircularMenuOverlay.

(** ** The camera and the face tracker *)

(** The face-mesh landmarks of one frame: index to normalised (x, y). *)
Definition landmarks : Type := nat -> point.

(** What one successful [cap.read()] yields, with what the collaborators
    answer while that frame is processed: the frame's shape (a captured
    image has at least one row and one column), the landmark list of
    [face_mesh.process] ([None] when no face is found), the readings of
    [time.time()] in the order they are taken, and the key code of
    [cv2.waitKey(1)]. *)
Record frame : Type := mkFrame {
  f_w : positive;
  f_h : positive;
  f_face : option landmarks;
  f_time1 : Q;
  f_time2 : Q;
  f_key : Z
}.

(** The capture device: the frames it still delivers; [cap.read()] on
    the empty list gives [ok = False]. *)
Definition capture : Type := list frame.

Definition frame_w (f : frame) : Q := inject_Z (Zpos (f_w f)).
Definition frame_h (f : frame) : Q := inject_Z (Zpos (f_h f)).

(** ** EyeTrackerController (main.py) *)

Module EyeTrackerController.

(** The fields of config.json that the controller reads. *)
Record Config : Type := mkConfig {
  screen_width : Q;
  screen_height : Q;
  threshold_ms : Q;
  cooldown_ms : Q;
  top_px : Q;
  bottom_px : Q;
  right_px : Q;
  scroll_amount : Q;
  scroll_interval_ms : Q;
  ema_alpha : Q;
  smoothing_outlier_px : Q;
  show_preview_cfg : bool;
  calibration_enabled : bool;
  calibration_matrix_cfg : option mat23
}.

Record t : Type := mk {
  config : Config;
  scroll : ScrollController.t;
  smoother : GazeSmoother.t;
  dwell : DwellState;
  enabled : bool;
  menu_dwell : DwellState;
  show_preview : bool;
  calibration_matrix : option mat23
}.

Definition screen_w (st : t) : Q := screen_width (config st).
Definition screen_h (st : t) : Q := screen_height (config st).

(** __init__(config) *)
Definition init (c : Config) : t :=
  mk c
     (ScrollController.init (scroll_amount c) (scroll_interval_ms c))
     (GazeSmoother.init (ema_alpha c) (smoothing_outlier_px c))
     DwellState_default
     true
     DwellState_default
     (show_preview_cfg c)
     (calibration_matrix_cfg c).

Definition set_smoother (st : t) (s : GazeSmoother.t) : t :=
  mk (config st) (scroll st) s (dwell st) (enabled st) (menu_dwell st)
     (show_preview st) (calibration_matrix st).

Definition set_dwell (st : t) (d : DwellState) : t :=
  mk (config st) (scroll st) (smoother st) d (enabled st) (menu_dwell st)
     (show_preview st) (calibration_matrix st).

Definition set_menu_dwell (st : t) (d : DwellState) : t :=
  mk (config st) (scroll st) (smoother st) (dwell st) (enabled st) d
     (show_preview st) (calibration_matrix st).

Definition set_enabled (st : t) (b : bool) : t :=
  mk (config st) (scroll st) (smoother st) (dwell st) b (menu_dwell st)
     (show_preview st) (calibration_matrix st).

Definition set_calibration_matrix (st : t) (m : mat23) : t :=
  mk (config st) (scroll st) (smoother st) (dwell st) (enabled st)
     (menu_dwell st) (show_preview st) (Some m).

(** sum(xs) *)
Definition py_sum (xs : list Q) : Q := fold_left Qplus xs 0.

(** len(xs) as a number *)
Definition py_len {A : Type} (xs : list A) : Q :=
  inject_Z (Z.of_nat (List.length xs)).

Definition left_ids : list nat := [474; 475; 476; 477]%nat.
Definition right_ids : list nat := [469; 470; 471; 472]%nat.

(** The inner function [center(ids)] of [_compute_iris_center]. *)
Definition center (lm : landmarks) (image_w image_h : Q) (ids : list nat)
    : point :=
  let pts := map lm ids in
  let xs := map (fun p => fst p * image_w) pts in
  let ys := map (fun p => snd p * image_h) pts in
  (py_sum xs / py_len xs, py_sum ys / py_len ys).

Definition _compute_iris_center (lm : landmarks) (image_w image_h : Q)
    : point :=
  let left := center lm image_w image_h left_ids in
  let right := center lm image_w image_h right_ids in
  ((fst left + fst right) / 2, (snd left + snd right) / 2).

Definition _map_to_screen (st : t) (gaze_xy : point) (fw fh : Q) : point :=
  match calibration_matrix st with
  | Some m =>
      let '(x, y) := gaze_xy in
      let vec := (x, y, 1) in
      (dot3 (fst m) vec, dot3 (snd m) vec)
  | None =>
      let x := clip (fst gaze_xy / fw) 0 1 in
      let y := clip (snd gaze_xy / fh) 0 1 in
      (x * screen_w st, y * screen_h st)
  end.

Definition _zone_for_point (st : t) (x y : Q) : name :=
  if Qle_bool y (top_px (config st)) then Some "scroll_up"%string
  else if Qgeb y (screen_h st - bottom_px (config st))
  then Some "scroll_down"%string
  else if Qgeb x (screen_w st - right_px (config st))
  then Some "scroll_right"%string
  else None.

(** The scroll call chosen by the if/elif chain of [_process_dwell]. *)
Definition scroll_action (s : ScrollController.t) (zone : name)
    : list event :=
  if name_eqb zone (Some "scroll_up"%string)
  then ScrollController.scroll_up s
  else if name_eqb zone (Some "scroll_down"%string)
  then ScrollController.scroll_down s
  else if name_eqb zone (Some "scroll_right"%string)
  then ScrollController.scroll_right s
  else [].

Definition _process_dwell (st : t) (zone : name) (now : Q)
    : t * list event :=
  let threshold := threshold_ms (config st) / 1000 in
  let cooldown := cooldown_ms (config st) / 1000 in
  let d := dwell st in
  if negb (name_eqb zone (active_zone d))
  then (set_dwell st (mkDwell zone now (last_fire_ts d)), [])
  else
    match zone with
    | None => (st, [])
    | Some _ =>
        if Qltb (now - last_fire_ts d) cooldown then (st, [])
        else if Qgeb (now - start_ts d) threshold
        then (set_dwell st (mkDwell (active_zone d) (start_ts d) now),
              scroll_action (scroll st) zone)
        else (st, [])
    end.

Definition _process_menu_dwell (st : t) (action : name) (now : Q)
    : bool * t :=
  let threshold := threshold_ms (config st) / 1000 in
  let d := menu_dwell st in
  if negb (name_eqb action (active_zone d))
  then (false, set_menu_dwell st (mkDwell action now (last_fire_ts d)))
  else
    match action with
    | None => (false, st)
    | Some _ =>
        if Qgeb (now - start_ts d) threshold
        then (true,
              set_menu_dwell st (mkDwell None (start_ts d) (last_fire_ts d)))
        else (false, st)
    end.

Definition _save_calibration (st : t) (matrix : mat23) : t * list event :=
  (set_calibration_matrix st matrix, [WriteConfig matrix]).

(** *** run_calibration *)

(** The normalised target positions of the sweep. *)
Definition calibration_points : list (Q * Q) :=
  [(1 # 2, 1 # 2); (1 # 10, 1 # 10); (9 # 10, 1 # 10);
   (1 # 10, 9 # 10); (9 # 10, 9 # 10)].

(** The [while True] loop for one target [(nx, ny)]: [None] when a read
    fails (the method returns), otherwise the captured sample row, its
    target row and the frames left. *)
Fixpoint capture_target (st : t) (nx ny : Q) (dwell_start : option Q)
    (cap : capture) : option (vec3 * (Q * Q) * capture) :=
  match cap with
  | [] => None
  | f :: cap' =>
      let w := frame_w f in
      let h := frame_h f in
      let cx := inject_Z (py_int (nx * w)) in
      let cy := inject_Z (py_int (ny * h)) in
      match f_face f with
      | Some lm =>
          let iris_xy := _compute_iris_center lm w h in
          let dx := Qabs (fst iris_xy - cx) in
          let dy := Qabs (snd iris_xy - cy) in
          if Qle_bool dx 40 && Qle_bool dy 40 then
            match dwell_start with
            | None => capture_target st nx ny (Some (f_time1 f)) cap'
            | Some d =>
                if Qgeb (f_time1 f - d) (6 # 10)
                then Some ((fst iris_xy, snd iris_xy, 1),
                           (nx * screen_w st, ny * screen_h st),
                           cap')
                else capture_target st nx ny dwell_start cap'
            end
          else capture_target st nx ny None cap'
      | None => capture_target st nx ny dwell_start cap'
      end
  end.

(** The [for nx, ny in points] loop: it either runs to its end with the
    rows gathered, or is left by the [return] of a failed read with the
    rows gathered so far. *)
Inductive sweep_result : Type :=
| Aborted (samples : list vec3) (targets : list (Q * Q))
| Collected (samples : list vec3) (targets : list (Q * Q)) (cap : capture).

Fixpoint sweep (st : t) (points : list (Q * Q))
    (samples : list vec3) (targets : list (Q * Q)) (cap : capture)
    : sweep_result :=
  match points with
  | [] => Collected samples targets cap
  | (nx, ny) :: rest =>
      match capture_target st nx ny None cap with
      | None => Aborted samples targets
      | Some (s, tg, cap') =>
          sweep st rest (samples ++ [s]) (targets ++ [tg]) cap'
      end
  end.

(** The rows a sweep has gathered when it ends, either way. *)
Definition gathered (r : sweep_result) : list vec3 * list (Q * Q) :=
  match r with
  | Aborted s tg => (s, tg)
  | Collected s tg _ => (s, tg)
  end.

Section WithLibs.
Context {L : Libs}.

(** [run_calibration] with the list of targets as an argument. *)
Definition run_calibration_on (points : list (Q * Q)) (st : t)
    (cap : capture) : outcome * t * capture * list event :=
  match sweep st points [] [] cap with
  | Aborted _ _ => (ReturnsNone, st, [], [])
  | Collected A B cap' =>
      if (3 <=? List.length A)%nat then
        let matrix := lstsq A B in
        let '(st', ev) := _save_calibration st (transpose matrix) in
        (ReturnsNone, st', cap', ev)
      else (ReturnsNone, st, cap', [])
  end.

Definition run_calibration (st : t) (cap : capture)
    : outcome * t * capture * list event :=
  run_calibration_on calibration_points st cap.

(** *** run *)

(** One iteration of the [while True] loop of [run]: whether the loop is
    left, the controller, overlay and camera afterwards, the calls made,
    and the iteration's local variables [screen_xy], [action] and the
    value of [_process_menu_dwell] (absent when no face was found). *)
Record tick : Type := mkTick {
  k_break : bool;
  k_state : t;
  k_overlay : CircularMenuOverlay.t;
  k_capture : capture;
  k_events : list event;
  k_screen_xy : option point;
  k_action : name;
  k_fired : bool
}.

(** Lines 269-271: iris centre, mapping, smoothing. *)
Definition gaze_point (st : t) (f : frame) (lm : landmarks)
    : point * GazeSmoother.t :=
  let iris_xy := _compute_iris_center lm (frame_w f) (frame_h f) in
  let screen_xy := _map_to_screen st iris_xy (frame_w f) (frame_h f) in
  GazeSmoother.update (smoother st) screen_xy.

(** Lines 279-286: what a fired menu action does; the flag is the
    [break] of "exit". *)
Definition dispatch (st : t) (action : name) (cap : capture)
    : bool * t * capture * list event :=
  if name_eqb action (Some "pause"%string)
  then (false, set_enabled st false, cap, [])
  else if name_eqb action (Some "resume"%string)
  then (false, set_enabled st true, cap, [])
  else if name_eqb action (Some "recalibrate"%string)
  then let '(_, st', cap', ev) := run_calibration st cap in
       (false, st', cap', ev)
  else if name_eqb action (Some "exit"%string)
  then (true, st, cap, [])
  else (false, st, cap, []).

(** Lines 288-290 *)
Definition scroll_phase (st : t) (screen_xy : point) (now : Q)
    : t * list event :=
  if enabled st
  then _process_dwell st (_zone_for_point st (fst screen_xy) (snd screen_xy))
                      now
  else (st, []).

(** Lines 292-299: the preview leaves the loop on the Escape key. *)
Definition preview_break (st : t) (f : frame) : bool :=
  show_preview st && (Z.land (f_key f) 255 =? 27)%Z.

Definition loop_body (st : t) (ov : CircularMenuOverlay.t) (cap : capture)
    : tick :=
  match cap with
  | [] => mkTick true st ov [] [] None None false
  | f :: cap1 =>
      match f_face f with
      | Some lm =>
          let '(screen_xy, sm) := gaze_point st f lm in
          let st1 := set_smoother st sm in
          let x := fst screen_xy in
          let y := snd screen_xy in
          let ov1 :=
            if CircularMenuOverlay.is_in_base_circle ov x y
            then CircularMenuOverlay.toggle_expand ov (Some true)
            else ov in
          let action := CircularMenuOverlay.action_at ov1 x y in
          let ov2 := CircularMenuOverlay.set_hover_action ov1 action in
          let '(fired, st2) := _process_menu_dwell st1 action (f_time1 f) in
          let '(exit, st3, cap2, ev1) :=
            if fired then dispatch st2 action cap1
            else (false, st2, cap1, []) in
          if exit
          then mkTick true st3 ov2 cap2 ev1 (Some screen_xy) action fired
          else
            let '(st4, ev2) := scroll_phase st3 screen_xy (f_time2 f) in
            mkTick (preview_break st4 f) st4 ov2 cap2 (ev1 ++ ev2)
                   (Some screen_xy) action fired
      | None =>
          mkTick (preview_break st f) st ov cap1 [] None None false
      end
  end.

(** The [while True] loop, for at most [fuel] iterations: the iterations
    made, first to last. *)
Fixpoint run_loop (fuel : nat) (st : t) (ov : CircularMenuOverlay.t)
    (cap : capture) : list tick :=
  match fuel with
  | O => []
  | S n =>
      let k := loop_body st ov cap in
      if k_break k then [k]
      else k :: run_loop n (k_state k) (k_overlay k) (k_capture k)
  end.

(** [run()]: [opened] is [cap.isOpened()], [sw] and [sh] the primary
    screen's geometry; every iteration that does not leave the loop
    consumes a frame, so one more iteration than there are frames
    is enough. *)
Definition run (st : t) (opened : bool) (sw sh : Z) (cap : capture)
    : outcome * list event * list tick :=
  if negb opened then (Raises "Camera not accessible", [], [])
  else
    let '(st1, cap1, ev) :=
      if calibration_enabled (config st)
         && match calibration_matrix st with None => true | Some _ => false end
      then let '(_, st', cap', ev) := run_calibration st cap in
           (st', cap', ev)
      else (st, cap, []) in
    let ticks :=
      run_loop (S (List.length cap1)) st1
               (CircularMenuOverlay.init sw sh) cap1 in
    (ReturnsNone, ev ++ flat_map k_events ticks, ticks).

End WithLibs.

End EyeTrackerController.

(** ** Definitions used by the statements *)

(** The blend [alpha*point + (1-alpha)*last]. *)
Definition blend (s : GazeSmoother.t) (p l : point) : point :=
  pt_add (pt_scale (GazeSmoother.alpha s) p)
         (pt_scale (1 - GazeSmoother.alpha s) l).

(** The smoother of the specification's example: alpha 0.5, outlier
    threshold 50 px, last point (100, 100). *)
Definition smoother_example : GazeSmoother.t :=
  GazeSmoother.mk (1 # 2) 50 (Some (100, 100)).


Import EyeTrackerController.

(** The dwell threshold and the cooldown in seconds, as [_process_dwell]
    and [_process_menu_dwell] compute them. *)
Definition dwell_threshold (st : t) : Q := threshold_ms (config st) / 1000.
Definition dwell_cooldown (st : t) : Q := cooldown_ms (config st) / 1000.

(** The zone names that have a scroll action. *)
Definition scroll_zones : list string :=
  ["scroll_up"; "scroll_down"; "scroll_right"]%string.

(** The scroll-dwell machine fed the same zone at successive times: each
    time with the calls it made. *)
Fixpoint sustain (st : t) (zone : name) (times : list Q)
    : list (Q * list event) :=
  match times with
  | [] => []
  | now :: rest =>
      let r := _process_dwell st zone now in
      (now, snd r) :: sustain (fst r) zone rest
  end.

(** The menu-dwell machine fed the same action at successive times: each
    time with the value [_process_menu_dwell] returned. *)
Fixpoint sustain_menu (st : t) (action : name) (times : list Q)
    : list (Q * bool) :=
  match times with
  | [] => []
  | now :: rest =>
      let r := _process_menu_dwell st action now in
      (now, fst r) :: sustain_menu (snd r) action rest
  end.

(** A configuration with the dwell settings of the specification's
    timing example (threshold 500 ms, cooldown 1000 ms) on a 1000x800
    screen with 50 px bands. *)
Definition config_example : Config :=
  mkConfig 1000 800 500 1000 50 50 50 120 0 (1 # 2) 50 false false None.

(** A controller in mid-dwell: zone "scroll_down" active since t = 10 s,
    nothing fired yet. *)
Definition dwelling_example : t :=
  set_dwell (init config_example)
            (mkDwell (Some "scroll_down"%string) 10 0).

(** Whether an entry of a [sustain] log made calls. *)
Definition made_calls (x : Q * list event) : bool :=
  match snd x with
  | [] => false
  | _ :: _ => true
  end.

(** Ticks every 100 ms from t = 100 s to t = 101.6 s. *)
Definition ticks_100ms : list Q :=
  map (fun k => 100 + inject_Z (Z.of_nat k) / 10) (seq 0 17).

(** The number of fires in a [sustain_menu] log. *)
Definition fires_count (log : list (Q * bool)) : nat :=
  List.length (filter snd log).

(** The controller with another [last_fire_ts] in its menu-dwell state. *)
Definition with_menu_last_fire (st : t) (lf : Q) : t :=
  set_menu_dwell st
    (mkDwell (active_zone (menu_dwell st)) (start_ts (menu_dwell st)) lf).

(** The controller with another [cooldown_ms] in its configuration. *)
Definition with_cooldown_ms (st : t) (c : Q) : t :=
  let g := config st in
  mk (mkConfig (screen_width g) (screen_height g) (threshold_ms g) c
               (top_px g) (bottom_px g) (right_px g) (scroll_amount g)
               (scroll_interval_ms g) (ema_alpha g) (smoothing_outlier_px g)
               (show_preview_cfg g) (calibration_enabled g)
               (calibration_matrix_cfg g))
     (scroll st) (smoother st) (dwell st) (enabled st) (menu_dwell st)
     (show_preview st) (calibration_matrix st).

(** The order of operations the specification describes for a tick with
    a raw gaze point: smooth the raw point, map the smoothed point
    through the calibration model, clamp to the screen bounds. *)
Definition spec_smooth_map_clamp (st : t) (f : frame) (lm : landmarks)
    : point * GazeSmoother.t :=
  let raw := _compute_iris_center lm (frame_w f) (frame_h f) in
  let '(smoothed, sm) := GazeSmoother.update (smoother st) raw in
  let mapped := _map_to_screen st smoothed (frame_w f) (frame_h f) in
  ((clip (fst mapped) 0 (screen_w st), clip (snd mapped) 0 (screen_h st)),
   sm).

(** Landmarks that put every iris landmark at pixel (60, 60) of a
    640x480 frame. *)
Definition landmarks_60 : landmarks := fun _ => (3 # 32, 1 # 8).

Definition frame_example : frame :=
  mkFrame 640 480 (Some landmarks_60) 100 100 (-1).

(** A controller calibrated to double each raw coordinate, whose smoother
    (alpha 0.5, outlier threshold 50) last returned (100, 100). *)
Definition doubling_example : t :=
  set_smoother
    (set_calibration_matrix (init config_example) ((2, 0, 0), (0, 2, 0)))
    smoother_example.

(** A freshly started controller calibrated to shift each raw coordinate
    by -500. *)
Definition shifting_example : t :=
  set_calibration_matrix (init config_example) ((1, 0, -500), (0, 1, -500)).

(** Membership in [0, screenWidth) x [0, screenHeight). *)
Definition on_screen (st : t) (p : point) : Prop :=
  (0 <= fst p /\ fst p < screen_w st) /\ (0 <= snd p /\ snd p < screen_h st).

(** Membership in the closed rectangle [0, screenWidth] x [0, screenHeight]. *)
Definition in_screen_rectangle (st : t) (p : point) : Prop :=
  (0 <= fst p /\ fst p <= screen_w st) /\ (0 <= snd p /\ snd p <= screen_h st).

(** ** Least squares *)

(** The sum of squared residuals [|A x - b|^2] of one output channel. *)
Fixpoint residual (A : list vec3) (b : list Q) (x : vec3) : Q :=
  match A, b with
  | a :: A', bi :: b' =>
      (dot3 a x - bi) * (dot3 a x - bi) + residual A' b' x
  | _, _ => 0
  end.

(** The two columns of a 3x2 solution, one per output channel. *)
Definition channel_x (m : mat32) : vec3 := fst (transpose m).
Definition channel_y (m : mat32) : vec3 := snd (transpose m).

(** What numpy documents of [lstsq(A, B)[0]] for a two-column [B]: each
    column of the result minimises the squared residual of its own
    column of [B]. *)
Definition least_squares (A : list vec3) (B : list (Q * Q)) (X : mat32)
    : Prop :=
  forall v : vec3,
    residual A (map fst B) (channel_x X) <= residual A (map fst B) v
    /\ residual A (map snd B) (channel_y X) <= residual A (map snd B) v.

(** [B] is the image of the rows of [A] under the affine map [M]. *)
Definition affine_image (M : mat23) (A : list vec3) (B : list (Q * Q))
    : Prop :=
  Forall2 (fun a b => fst b == dot3 (fst M) a /\ snd b == dot3 (snd M) a)
          A B.

(** The design-matrix row of a raw point: the point with a constant 1. *)
Definition augment (p : point) : vec3 := (fst p, snd p, 1).

(** *** A concrete instance of the library routines

    Used to evaluate the model on examples: least squares through the
    normal equations [(A^T A) x = A^T b], solved by Cramer's rule (exact
    for a design matrix of full column rank), and cosine and sine by
    their Taylor polynomials of degree 12 and 13. *)

Definition vec3_add (u v : vec3) : vec3 :=
  let '(a, b, c) := u in
  let '(x, y, z) := v in
  (a + x, b + y, c + z).

Definition vec3_scale (k : Q) (v : vec3) : vec3 :=
  let '(x, y, z) := v in (k * x, k * y, k * z).

(** A^T b *)
Fixpoint At_b (A : list vec3) (b : list Q) : vec3 :=
  match A, b with
  | a :: A', bi :: b' => vec3_add (vec3_scale bi a) (At_b A' b')
  | _, _ => (0, 0, 0)
  end.

(** The rows of A^T A *)
Definition gram (A : list vec3) : vec3 * vec3 * vec3 :=
  (At_b A (map (fun a => fst (fst a)) A),
   At_b A (map (fun a => snd (fst a)) A),
   At_b A (map (fun a => snd a) A)).

Definition det3 (r0 r1 r2 : vec3) : Q :=
  let '(a, b, c) := r0 in
  let '(d, e, f) := r1 in
  let '(g, h, i) := r2 in
  a * (e * i - f * h) - b * (d * i - f * g) + c * (d * h - e * g).

(** Cramer's rule for [G x = v]. *)
Definition cramer (G : vec3 * vec3 * vec3) (v : vec3) : vec3 :=
  let '(r0, r1, r2) := G in
  let '(a, b, c) := r0 in
  let '(d, e, f) := r1 in
  let '(g, h, i) := r2 in
  let '(p, q, r) := v in
  let dt := det3 r0 r1 r2 in
  (det3 (p, b, c) (q, e, f) (r, h, i) / dt,
   det3 (a, p, c) (d, q, f) (g, r, i) / dt,
   det3 (a, b, p) (d, e, q) (g, h, r) / dt).

Definition lstsq_normal (A : list vec3) (B : list (Q * Q)) : mat32 :=
  let G := gram A in
  let '(x0, x1, x2) := cramer G (At_b A (map fst B)) in
  let '(y0, y1, y2) := cramer G (At_b A (map snd B)) in
  ((Qred x0, Qred y0), (Qred x1, Qred y1), (Qred x2, Qred y2)).

Definition taylor_cos (x : Q) : Q :=
  let x2 := x * x in
  1 - x2 / 2 * (1 - x2 / 12 * (1 - x2 / 30 * (1 - x2 / 56
    * (1 - x2 / 90 * (1 - x2 / 132))))).

Definition taylor_sin (x : Q) : Q :=
  let x2 := x * x in
  x * (1 - x2 / 6 * (1 - x2 / 20 * (1 - x2 / 42 * (1 - x2 / 72
    * (1 - x2 / 110 * (1 - x2 / 156)))))).

Definition libs_example : Libs :=
  {| lstsq := lstsq_normal;
     qCos := fun x => Qred (taylor_cos x);
     qSin := fun x => Qred (taylor_sin x) |}.

(** Five raw points and the matrix of the affine map
    (x, y) |-> (2x + y + 10, 3y - x + 5). *)
Definition raw_points_example : list point :=
  [(320, 240); (64, 48); (576, 50); (60, 430); (580, 432)].

Definition affine_example : mat23 := ((2, 1, 10), (-1, 3, 5)).

Definition targets_example : list (Q * Q) :=
  map (fun p => (dot3 (fst affine_example) (augment p),
                 dot3 (snd affine_example) (augment p)))
      raw_points_example.

(** A 640x480 frame taken at time [tm] whose iris landmarks all sit at
    the pixel (x, y). *)
Definition frame_at (x y tm : Q) : frame :=
  mkFrame 640 480 (Some (fun _ => (x / 640, y / 480))) tm tm (-1).

(** A camera that shows the iris on each calibration dot in turn, twice
    one second apart, and then fails. *)
Definition calibration_stream : capture :=
  [frame_at 320 240 0; frame_at 320 240 1;
   frame_at 64 48 2; frame_at 64 48 3;
   frame_at 576 48 4; frame_at 576 48 5;
   frame_at 64 432 6; frame_at 64 432 7;
   frame_at 576 432 8; frame_at 576 432 9].

(** The same camera failing after the second dot. *)
Definition short_stream : capture := firstn 4 calibration_stream.

(** ** Further definitions used by the statements *)

(** The smoother fed a sequence of points: the points returned, in order,
    and the smoother afterwards. *)
Fixpoint smooth_all (s : GazeSmoother.t) (ps : list point)
    : list point * GazeSmoother.t :=
  match ps with
  | [] => ([], s)
  | p :: rest =>
      let r := GazeSmoother.update s p in
      let r' := smooth_all (snd r) rest in
      (fst r :: fst r', snd r')
  end.

(** The eight iris landmark indices. *)
Definition iris_ids : list nat := left_ids ++ right_ids.

(** A controller that has not been calibrated, with its smoother's last
    point at the screen centre. *)
Definition centred_example : t :=
  set_smoother (init config_example)
               (GazeSmoother.mk (1 # 2) 50 (Some (500, 400))).

(** The values one loop iteration computes before the menu machine is
    fed, for a frame with a face: the overlay after the base-circle
    test, the action hit, the overlay with its hover action set, and the
    controller with the smoother updated. *)
Definition tick_overlay1 (st : t) (ov : CircularMenuOverlay.t) (f : frame)
    (lm : landmarks) : CircularMenuOverlay.t :=
  let p := fst (gaze_point st f lm) in
  if CircularMenuOverlay.is_in_base_circle ov (fst p) (snd p)
  then CircularMenuOverlay.toggle_expand ov (Some true)
  else ov.

Definition tick_action {L : Libs} (st : t) (ov : CircularMenuOverlay.t)
    (f : frame) (lm : landmarks) : name :=
  let p := fst (gaze_point st f lm) in
  CircularMenuOverlay.action_at (tick_overlay1 st ov f lm) (fst p) (snd p).

Definition tick_menu {L : Libs} (st : t) (ov : CircularMenuOverlay.t)
    (f : frame) (lm : landmarks) : bool * t :=
  _process_menu_dwell (set_smoother st (snd (gaze_point st f lm)))
                      (tick_action st ov f lm) (f_time1 f).

(** Calls that inject input into the operating system. *)
Definition is_input_event (e : event) : bool :=
  match e with
  | MouseEvent _ _ _ _ _ => true
  | KeybdEvent _ _ _ _ => true
  | WriteConfig _ => false
  end.

(** Shift key presses minus Shift key releases in a trace of calls. *)
Fixpoint shift_held (es : list event) : Z :=
  match es with
  | [] => 0
  | KeybdEvent vk _ flags _ :: rest =>
      (if (vk =? VK_SHIFT)%Z
       then if (flags =? KEYEVENTF_KEYUP)%Z then -1 else 1
       else 0) + shift_held rest
  | _ :: rest => shift_held rest
  end%Z.

(** The four menu action names of the overlay. *)
Definition menu_actions : list string :=
  ["pause"; "resume"; "recalibrate"; "exit"]%string.

(** The overlay of a 1000x800 screen, expanded: centre (880, 400), the
    ring items 64 px above, right of, below and left of it. *)
Definition overlay_open : CircularMenuOverlay.t :=
  CircularMenuOverlay.toggle_expand (CircularMenuOverlay.init 1000 800)
                                    (Some true).

(** An uncalibrated controller whose menu machine has been on action
    [a] since t = 0. *)
Definition menu_armed (a : string) : t :=
  set_menu_dwell (init config_example) (mkDwell (Some a) 0 0).

(** A frame at t = 1 s with the gaze on the "recalibrate" item, screen
    point (880, 464), and one with the gaze on the "exit" item, screen
    point (816, 400). *)
Definition frame_on_recalibrate : frame := frame_at (2816 # 5) (1392 # 5) 1.
Definition frame_on_exit : frame := frame_at (13056 # 25) 240 1.

(** The fields of the overlay that fix its geometry and its items. *)
Definition same_layout (o o' : CircularMenuOverlay.t) : Prop :=
  CircularMenuOverlay.radius o' = CircularMenuOverlay.radius o
  /\ CircularMenuOverlay.actions o' = CircularMenuOverlay.actions o
  /\ CircularMenuOverlay.pos_x o' = CircularMenuOverlay.pos_x o
  /\ CircularMenuOverlay.pos_y o' = CircularMenuOverlay.pos_y o
  /\ CircularMenuOverlay.width o' = CircularMenuOverlay.width o
  /\ CircularMenuOverlay.height o' = CircularMenuOverlay.height o.

(** Whether the point (sx, sy) is within 20 px of ring item [n], as the
    loop of [action_at] tests it. *)
Definition item_hit {L : Libs} (cx cy ring_radius angle_step sx sy : Q)
    (n : nat) : bool :=
  let angle_deg := inject_Z (Z.of_nat n) * angle_step - 90 in
  let radians := angle_deg * (314159 # 100000) / 180 in
  let x := cx + ring_radius * qCos radians in
  let y := cy + ring_radius * qSin radians in
  Qle_bool ((sx - x) * (sx - x) + (sy - y) * (sy - y)) (20 * 20).

(** The same test for item [n] of an overlay. *)
Definition in_item {L : Libs} (o : CircularMenuOverlay.t) (n : nat)
    (sx sy : Q) : bool :=
  let '(cx, cy) := CircularMenuOverlay.screen_center o in
  item_hit cx cy (CircularMenuOverlay.radius o + 36)
           (360 / inject_Z (Z.max 1 (Z.of_nat
              (List.length (CircularMenuOverlay.actions o)))))
           sx sy n.

(** Whether a frame shows a face. *)
Definition has_face (f : frame) : bool :=
  match f_face f with
  | Some _ => true
  | None => false
  end.

(** The pixel of the calibration dot for target [(nx, ny)] in frame [f]. *)
Definition dot_of (nx ny : Q) (f : frame) : point :=
  (inject_Z (py_int (nx * frame_w f)), inject_Z (py_int (ny * frame_h f))).

(** The sample row and the remaining frames of a capture, if any. *)
Definition captured_row (r : option (vec3 * (Q * Q) * capture))
    : option (vec3 * (Q * Q)) :=
  match r with
  | Some (s, tg, _) => Some (s, tg)
  | None => None
  end.

(** ** JSON values and load_config (main.py) *)

(** A parsed JSON value; an object is its members in insertion order,
    as a Python dict keeps them. *)
#[local] Set Warnings "-register-all".
Inductive json : Type :=
| JNull
| JBool (b : bool)
| JNum (q : Q)
| JStr (s : string)
| JArr (items : list json)
| JObj (members : list (string * json)).

(** Python's truth value of a parsed JSON value. *)
Definition py_truthy (v : json) : bool :=
  match v with
  | JNull => false
  | JBool b => b
  | JNum q => negb (Qeq_bool q 0)
  | JStr s => negb (String.eqb s "")
  | JArr items => match items with [] => false | _ :: _ => true end
  | JObj members => match members with [] => false | _ :: _ => true end
  end.

(** d.get(key) on a dict: None when the key is missing. *)
Fixpoint dict_get (key : string) (d : list (string * json)) : option json :=
  match d with
  | [] => None
  | (k, v) :: rest => if String.eqb k key then Some v else dict_get key rest
  end.

(** d[key] = v: an existing key keeps its place, a new one goes last. *)
Fixpoint dict_set (key : string) (v : json) (d : list (string * json))
    : list (string * json) :=
  match d with
  | [] => [(key, v)]
  | (k, w) :: rest =>
      if String.eqb k key then (k, v) :: rest
      else (k, w) :: dict_set key v rest
  end.

(** The truth value of [d.get(key)]: a missing key gives None, which is
    false. *)
Definition get_truthy (key : string) (d : list (string * json)) : bool :=
  match dict_get key d with
  | Some v => py_truthy v
  | None => false
  end.

(** What a call returns, or the exception it raises. *)
Inductive py_result (A : Type) : Type :=
| Returns (a : A)
| Raised (exc : string).
Arguments Returns {A} a.
Arguments Raised {A} exc.

(** load_config, from the object parsed out of config.json on;
    [metric0] and [metric1] are GetSystemMetrics(0) and
    GetSystemMetrics(1).  A "screen" member that is not an object has
    no [get] method. *)
Definition load_config (config : list (string * json)) (metric0 metric1 : Z)
    : py_result (list (string * json)) :=
  let config :=
    match dict_get "screen" config with
    | None => dict_set "screen" (JObj []) config
    | Some _ => config
    end in
  match dict_get "screen" config with
  | Some (JObj screen) =>
      if negb (get_truthy "width" screen) || negb (get_truthy "height" screen)
      then
        let screen := dict_set "width" (JNum (inject_Z metric0)) screen in
        let screen := dict_set "height" (JNum (inject_Z metric1)) screen in
        Returns (dict_set "screen" (JObj screen) config)
      else Returns config
  | _ => Raised "AttributeError"
  end.

(** The screen size a configuration object holds, if it has one. *)
Definition screen_size (config : list (string * json))
    : option (json * json) :=
  match dict_get "screen" config with
  | Some (JObj screen) =>
      match dict_get "width" screen, dict_get "height" screen with
      | Some w, Some h => Some (w, h)
      | _, _ => None
      end
  | _ => None
  end.

(** ** Native messaging host (native/eyetracker_native_host.py) *)

Module NativeHost.


(** The library routines the host calls: [json.dumps(payload)] encoded
    as UTF-8, [json.loads] of the UTF-8 decoding of some bytes ([None]
    when the decoding or the parsing raises, both with a ValueError),
    and [int] of a string ([None] when it raises ValueError). *)
Class JsonLib : Type := {
  dumps : json -> list Byte.byte;
  loads : list Byte.byte -> option json;
  int_of_str : string -> option Z
}.

(** The byte with value [n mod 256]. *)
Definition byte_of (n : N) : Byte.byte :=
  match Byte.of_N (n mod 256) with
  | Some b => b
  | None => Byte.x00
  end.

(** struct.pack('<I', n): four bytes, least significant first;
    struct.error ([None]) for a number that does not fit 32 bits. *)
Definition pack_u32 (n : N) : option (list Byte.byte) :=
  if (n <? 2 ^ 32)%N
  then Some [byte_of n; byte_of (n / 256); byte_of (n / 65536);
             byte_of (n / 16777216)]
  else None.

(** struct.unpack('<I', raw)[0]: struct.error ([None]) unless [raw] has
    exactly four bytes. *)
Definition unpack_u32 (raw : list Byte.byte) : option N :=
  match raw with
  | [a; b; c; d] =>
      Some (Byte.to_N a
            + 256 * (Byte.to_N b
                     + 256 * (Byte.to_N c + 256 * Byte.to_N d)))%N
  | _ => None
  end.

(** stream.read(n): up to [n] bytes, and the stream after them. *)
Definition read (n : N) (stream : list Byte.byte)
    : list Byte.byte * list Byte.byte :=
  (firstn (N.to_nat n) stream, skipn (N.to_nat n) stream).

Section WithJson.
Context {J : JsonLib}.

(** _read_message() on the bytes still to come on stdin: the value
    returned ([JNull] is Python's None) or the exception, and stdin
    afterwards. *)
Definition _read_message (stdin : list Byte.byte)
    : py_result json * list Byte.byte :=
  let '(raw_len, stdin1) := read 4 stdin in
  match raw_len with
  | [] => (Returns JNull, stdin1)
  | _ :: _ =>
      match unpack_u32 raw_len with
      | None => (Raised "struct.error", stdin1)
      | Some msg_len =>
          if (msg_len =? 0)%N then (Returns JNull, stdin1)
          else
            let '(data, stdin2) := read msg_len stdin1 in
            match data with
            | [] => (Returns JNull, stdin2)
            | _ :: _ =>
                match loads data with
                | Some v => (Returns v, stdin2)
                | None => (Raised "ValueError", stdin2)
                end
            end
      end
  end.

(** _send_message(payload): the bytes written to stdout. *)
Definition _send_message (payload : json) : py_result (list Byte.byte) :=
  let encoded := dumps payload in
  match pack_u32 (N.of_nat (List.length encoded)) with
  | Some header => Returns (header ++ encoded)
  | None => Raised "struct.error"
  end.

End WithJson.

(** The messages the host logs. *)
Inductive log_message : Type :=
| LogAlreadyRunning (port : Z)
| LogStarted (port : Z)
| LogListening (port : Z)
| LogFailed (port : Z)
| LogReceived (command : json) (port : Z)
| LogWebMissing
| LogUnknown (command : json).

(** What the host does to the outside, in order: a log line, a
    connection attempt of [_is_listening], the spawned server process,
    a sleep of 0.1 s, a message sent to the browser. *)
Inductive host_event : Type :=
| Log (m : log_message)
| Connect (port : Z)
| Popen (port : Z) (cwd : string)
| Sleep
| Send (payload : json).

(** The polling loop of [_start_server], with [n] rounds left; [probe k]
    tells whether the host's [k]-th connection attempt succeeds. *)
Fixpoint poll (n : nat) (port : Z) (probe : nat -> bool) (k : nat)
    : bool * list host_event * nat :=
  match n with
  | O => (false, [], k)
  | S n' =>
      if probe k
      then (true, [Connect port; Log (LogListening port)], S k)
      else
        let '(ok, ev, k') := poll n' port probe (S k) in
        (ok, Connect port :: Sleep :: ev, k')
  end.

(** _start_server(port, root_dir): the response, what was done, and the
    number of connection attempts made so far. *)
Definition _start_server (port : Z) (root_dir : string)
    (probe : nat -> bool) (k : nat) : json * list host_event * nat :=
  if probe k
  then (JObj [("ok", JBool true); ("alreadyRunning", JBool true)]%string,
        [Connect port; Log (LogAlreadyRunning port)],
        S k)
  else
    let '(ok, ev, k') := poll 20 port probe (S k) in
    if ok
    then (JObj [("ok", JBool true); ("alreadyRunning", JBool false)]%string,
          [Connect port; Popen port root_dir; Log (LogStarted port)] ++ ev,
          k')
    else (JObj [("ok", JBool false);
                ("error", JStr "Server did not start")]%string,
          [Connect port; Popen port root_dir; Log (LogStarted port)]
            ++ ev ++ [Log (LogFailed port)],
          k').


Section Main.
Context {J : JsonLib}.



End Main.

End NativeHost.

(** Counting what the host did. *)
Definition count_events (p : NativeHost.host_event -> bool)
    (ev : list NativeHost.host_event) : nat :=
  List.length (filter p ev).

Definition is_popen (e : NativeHost.host_event) : bool :=
  match e with NativeHost.Popen _ _ => true | _ => false end.

Definition is_connect (e : NativeHost.host_event) : bool :=
  match e with NativeHost.Connect _ => true | _ => false end.

Definition is_sleep (e : NativeHost.host_event) : bool :=
  match e with NativeHost.Sleep => true | _ => false end.


(** A stand-in for the JSON library that knows the empty object only:
    it writes it as the two bytes of "{}" and everything else as
    "null", and reads those two texts back. *)
Definition bytes_empty_object : list Byte.byte := [Byte.x7b; Byte.x7d].
Definition bytes_null : list Byte.byte :=
  [Byte.x6e; Byte.x75; Byte.x6c; Byte.x6c].

Definition bytes_eqb (a b : list Byte.byte) : bool :=
  if list_eq_dec Byte.byte_eq_dec a b then true else false.

Definition json_example : NativeHost.JsonLib :=
  {| NativeHost.dumps := fun v =>
       match v with
       | JObj [] => bytes_empty_object
       | _ => bytes_null
       end;
     NativeHost.loads := fun bs =>
       if bytes_eqb bs bytes_empty_object then Some (JObj [])
       else if bytes_eqb bs bytes_null then Some JNull
       else None;
     NativeHost.int_of_str := fun _ => None |}.
(** ** Facts about the numeric helpers *)

Lemma Qltb_true (a b : Q) : Qltb a b = true <-> a < b.
Proof.
  unfold Qltb. rewrite negb_true_iff.
  destruct (Qle_bool b a) eqn:E.
  - apply Qle_bool_iff in E. split; [discriminate | intro H; qlra].
  - split; [intros _ | reflexivity].
    apply Qnot_le_lt. intro H. apply Qle_bool_iff in H. congruence.
Qed.

Lemma Qltb_false (a b : Q) : Qltb a b = false <-> b <= a.
Proof.
  unfold Qltb. rewrite negb_false_iff. apply Qle_bool_iff.
Qed.

Lemma Qgeb_true (a b : Q) : Qgeb a b = true <-> b <= a.
Proof. unfold Qgeb. apply Qle_bool_iff. Qed.

Lemma Qgeb_false (a b : Q) : Qgeb a b = false <-> a < b.
Proof.
  unfold Qgeb. destruct (Qle_bool b a) eqn:E.
  - apply Qle_bool_iff in E. split; [discriminate | intro H; qlra].
  - split; [intros _ | reflexivity].
    apply Qnot_le_lt. intro H. apply Qle_bool_iff in H. congruence.
Qed.

Lemma sq_norm_nonneg (v : point) : 0 <= sq_norm v.
Proof. unfold sq_norm. qnra. Qed.

(** [norm_gt] is the comparison of the real Euclidean length with [r]. *)
Lemma norm_gt_sqrt (v : point) (r : Q) :
  norm_gt v r = true <-> (Q2R r < sqrt (Q2R (sq_norm v)))%R.
Proof.
  assert (Hn : (0 <= Q2R (sq_norm v))%R).
  { replace 0%R with (Q2R 0) by (unfold Q2R; simpl; rlra).
    apply Qle_Rle, sq_norm_nonneg. }
  unfold norm_gt. rewrite orb_true_iff, !Qltb_true.
  split.
  - intros [H | H].
    + apply Qlt_Rlt in H. replace (Q2R 0) with 0%R in H by (unfold Q2R; simpl; rlra).
      pose proof (sqrt_pos (Q2R (sq_norm v))). rlra.
    + apply Qlt_Rlt in H. rewrite Q2R_mult in H.
      destruct (Rlt_le_dec (Q2R r) 0) as [Hr | Hr].
      * pose proof (sqrt_pos (Q2R (sq_norm v))). rlra.
      * rewrite <- (sqrt_square (Q2R r)) by exact Hr.
        apply sqrt_lt_1_alt. split; [rnra | exact H].
  - intros H.
    destruct (Qlt_le_dec r 0) as [Hr | Hr]; [left; exact Hr | right].
    apply Rlt_Qlt. rewrite Q2R_mult.
    assert (Hr' : (0 <= Q2R r)%R).
    { replace 0%R with (Q2R 0) by (unfold Q2R; simpl; rlra).
      apply Qle_Rle, Hr. }
    rewrite <- (sqrt_square (Q2R r)) in H by exact Hr'.
    apply sqrt_lt_0_alt in H. exact H.
Qed.

Lemma name_eqb_eq (a b : name) : name_eqb a b = true <-> a = b.
Proof.
  destruct a as [x|], b as [y|]; simpl; split; intro H;
    try reflexivity; try discriminate.
  - apply String.eqb_eq in H. now subst.
  - inversion H. apply String.eqb_refl.
Qed.

Lemma name_eqb_neq (a b : name) : name_eqb a b = false <-> a <> b.
Proof.
  split.
  - intros H E. apply name_eqb_eq in E. congruence.
  - intro H. destruct (name_eqb a b) eqn:E; [|reflexivity].
    apply name_eqb_eq in E. contradiction.
Qed.

Lemma name_eqb_refl (a : name) : name_eqb a a = true.
Proof. now apply name_eqb_eq. Qed.

(** ** GazeSmoother.update *)

(** C9: with a stored last point [l], [update p] returns [l] and leaves
    the smoother as it is when the Euclidean distance from [p] to [l]
    exceeds [outlier_px]; otherwise it returns
    [alpha*p + (1-alpha)*l] and stores that value as the new last point. *)
Theorem update_rejects_or_blends (s : GazeSmoother.t) (l p : point) :
  GazeSmoother.last s = Some l ->
  ((Q2R (GazeSmoother.outlier_px s) < sqrt (Q2R (sq_norm (pt_sub p l))))%R ->
   GazeSmoother.update s p = (l, s))
  /\
  (~ (Q2R (GazeSmoother.outlier_px s) < sqrt (Q2R (sq_norm (pt_sub p l))))%R ->
   GazeSmoother.update s p
   = (blend s p l, GazeSmoother.set_last s (blend s p l))).
Proof.
  intros Hl. unfold GazeSmoother.update. rewrite Hl.
  destruct (norm_gt (pt_sub p l) (GazeSmoother.outlier_px s)) eqn:E.
  - split; [reflexivity|].
    intros H. exfalso. apply H. now apply norm_gt_sqrt.
  - split; [|reflexivity].
    intros H. apply norm_gt_sqrt in H. congruence.
Qed.

(** The two examples of C9: (200, 100) is rejected and nothing changes;
    (110, 100) is blended to (105, 100), which is stored. *)
Lemma update_rejects_or_blends_witness :
  GazeSmoother.update smoother_example (200, 100)
  = ((100, 100), smoother_example)
  /\ pt_eq (fst (GazeSmoother.update smoother_example (110, 100))) (105, 100)
  /\ GazeSmoother.last (snd (GazeSmoother.update smoother_example (110, 100)))
     = Some (fst (GazeSmoother.update smoother_example (110, 100))).
Proof.
  pose proof (update_rejects_or_blends smoother_example (100, 100)) as T.
  split; [|split].
  - apply (proj1 (T (200, 100) eq_refl)).
    apply norm_gt_sqrt. vm_compute. reflexivity.
  - rewrite (proj2 (T (110, 100) eq_refl)).
    + vm_compute. split; reflexivity.
    + intro H. apply norm_gt_sqrt in H. vm_compute in H. discriminate.
  - rewrite (proj2 (T (110, 100) eq_refl)).
    + reflexivity.
    + intro H. apply norm_gt_sqrt in H. vm_compute in H. discriminate.
Defined.

(** ** The dwell machines *)

Lemma scroll_action_nonempty (s : ScrollController.t) (z : string) :
  In z scroll_zones -> scroll_action s (Some z) <> [].
Proof.
  intros [H | [H | [H | []]]]; subst z; cbn; discriminate.
Qed.

(** [_process_dwell] on the zone that is already the active one. *)
Lemma process_dwell_same (st : t) (z : string) (now : Q) :
  active_zone (dwell st) = Some z ->
  _process_dwell st (Some z) now
  = if Qltb (now - last_fire_ts (dwell st)) (dwell_cooldown st)
    then (st, [])
    else if Qgeb (now - start_ts (dwell st)) (dwell_threshold st)
    then (set_dwell st (mkDwell (Some z) (start_ts (dwell st)) now),
          scroll_action (scroll st) (Some z))
    else (st, []).
Proof.
  intros H. unfold _process_dwell, dwell_cooldown, dwell_threshold.
  rewrite H, name_eqb_refl. reflexivity.
Qed.

(** [_process_dwell] on a zone other than the active one. *)
Lemma process_dwell_change (st : t) (zone : name) (now : Q) :
  zone <> active_zone (dwell st) ->
  _process_dwell st zone now
  = (set_dwell st (mkDwell zone now (last_fire_ts (dwell st))), []).
Proof.
  intros H. apply name_eqb_neq in H. unfold _process_dwell.
  rewrite H. reflexivity.
Qed.

(** [_process_menu_dwell] on an action other than the active one. *)
Lemma process_menu_dwell_change (st : t) (action : name) (now : Q) :
  action <> active_zone (menu_dwell st) ->
  _process_menu_dwell st action now
  = (false,
     set_menu_dwell st (mkDwell action now (last_fire_ts (menu_dwell st)))).
Proof.
  intros H. apply name_eqb_neq in H. unfold _process_menu_dwell.
  rewrite H. reflexivity.
Qed.

(** What one step on the active zone does, by whether it made calls. *)
Lemma process_dwell_same_cases (st : t) (z : string) (now : Q) :
  In z scroll_zones ->
  active_zone (dwell st) = Some z ->
  (snd (_process_dwell st (Some z) now) = []
   /\ fst (_process_dwell st (Some z) now) = st)
  \/
  (snd (_process_dwell st (Some z) now) <> []
   /\ fst (_process_dwell st (Some z) now)
      = set_dwell st (mkDwell (Some z) (start_ts (dwell st)) now)
   /\ dwell_cooldown st <= now - last_fire_ts (dwell st)
   /\ dwell_threshold st <= now - start_ts (dwell st)).
Proof.
  intros Hz Ha. rewrite (process_dwell_same st z now Ha).
  destruct (Qltb _ (dwell_cooldown st)) eqn:Ec; [left; now split|].
  destruct (Qgeb _ (dwell_threshold st)) eqn:Et; [|left; now split].
  right. simpl. apply Qltb_false in Ec. apply Qgeb_true in Et.
  repeat split; try assumption. now apply scroll_action_nonempty.
Qed.

(** While the zone stays the active one, a fire is at least the
    threshold after [start_ts]. *)
Lemma sustain_fire_after_start (z : string) (ts : list Q) :
  In z scroll_zones ->
  forall (st : t) (now : Q) (ev : list event),
    active_zone (dwell st) = Some z ->
    In (now, ev) (sustain st (Some z) ts) ->
    ev <> [] ->
    dwell_threshold st <= now - start_ts (dwell st).
Proof.
  intros Hz. induction ts as [|a ts IH]; intros st now ev Ha Hin Hev.
  - destruct Hin.
  - simpl in Hin.
    destruct (process_dwell_same_cases st z a Hz Ha)
      as [[He Hs] | (He & Hs & Hc & Ht)].
    + destruct Hin as [Hin | Hin].
      * inversion Hin; subst. congruence.
      * rewrite Hs in Hin. now apply (IH st now ev).
    + destruct Hin as [Hin | Hin].
      * inversion Hin; subst. exact Ht.
      * rewrite Hs in Hin.
        apply (IH _ now ev) in Hin; [exact Hin | reflexivity | exact Hev].
Qed.

(** After a fire at [t1], the next fire of a sustained zone is at least
    the cooldown later. *)
Lemma sustain_next_fire (z : string) (l2 : list (Q * list event)) :
  In z scroll_zones ->
  forall (st : t) (ts : list Q) (t2 : Q) (e2 : list event)
         (l3 : list (Q * list event)),
    active_zone (dwell st) = Some z ->
    sustain st (Some z) ts = l2 ++ (t2, e2) :: l3 ->
    (forall x, In x l2 -> snd x = []) ->
    e2 <> [] ->
    dwell_cooldown st <= t2 - last_fire_ts (dwell st).
Proof.
  intros Hz. induction l2 as [|x l2 IH]; intros st ts t2 e2 l3 Ha Hs Hq He.
  - destruct ts as [|a ts]; [discriminate|]. simpl in Hs.
    inversion Hs; subst.
    destruct (process_dwell_same_cases st z t2 Hz Ha)
      as [[He' _] | (_ & _ & Hc & _)]; [congruence | exact Hc].
  - destruct ts as [|a ts]; [discriminate|]. simpl in Hs.
    injection Hs as Hx Hrest.
    destruct (process_dwell_same_cases st z a Hz Ha)
      as [[He' Hst] | (He' & _)].
    + rewrite Hst in Hrest.
      apply (IH st ts t2 e2 l3 Ha Hrest); [|exact He].
      intros y Hy. apply Hq. now right.
    + exfalso. apply He'.
      specialize (Hq x (or_introl eq_refl)).
      rewrite <- Hx in Hq. exact Hq.
Qed.

(** A step that makes calls was taken on the active zone. *)
Lemma process_dwell_fire_active (st : t) (zone : name) (now : Q) :
  snd (_process_dwell st zone now) <> [] ->
  zone = active_zone (dwell st).
Proof.
  intros H. destruct (name_eqb zone (active_zone (dwell st))) eqn:E.
  - now apply name_eqb_eq.
  - apply name_eqb_neq in E.
    rewrite (process_dwell_change st zone now E) in H. now elim H.
Qed.

Lemma sustain_consecutive_fires (z : string) (l1 : list (Q * list event)) :
  In z scroll_zones ->
  forall (st : t) (ts : list Q) (t1 t2 : Q) (e1 e2 : list event)
         (l2 l3 : list (Q * list event)),
    sustain st (Some z) ts = l1 ++ (t1, e1) :: l2 ++ (t2, e2) :: l3 ->
    e1 <> [] -> e2 <> [] ->
    (forall x, In x l2 -> snd x = []) ->
    dwell_cooldown st <= t2 - t1.
Proof.
  intros Hz. induction l1 as [|x l1 IH];
    intros st ts t1 t2 e1 e2 l2 l3 Hs H1 H2 Hq.
  - destruct ts as [|a ts]; [discriminate|]. simpl in Hs.
    injection Hs as Ht He Hrest. subst a.
    assert (Ha : active_zone (dwell st) = Some z).
    { symmetry. apply (process_dwell_fire_active st (Some z) t1).
      now rewrite He. }
    destruct (process_dwell_same_cases st z t1 Hz Ha)
      as [[He' _] | (_ & Hst & _)]; [congruence|].
    rewrite Hst in Hrest.
    exact (sustain_next_fire z l2 Hz
             (set_dwell st (mkDwell (Some z) (start_ts (dwell st)) t1))
             ts t2 e2 l3 eq_refl Hrest Hq H2).
  - destruct ts as [|a ts]; [discriminate|]. simpl in Hs.
    injection Hs as _ Hrest.
    assert (Hc : dwell_cooldown (fst (_process_dwell st (Some z) a))
                 = dwell_cooldown st).
    { unfold _process_dwell.
      repeat match goal with
             | |- context [if ?c then _ else _] => destruct c
             end; reflexivity. }
    rewrite <- Hc.
    apply (IH _ ts t1 t2 e1 e2 l2 l3 Hrest H1 H2 Hq).
Qed.

(** C5: the scroll-dwell machine on the zone [z] that is already its
    active target.  While [now - last_fire_ts < cooldown] it makes no
    call and changes nothing; otherwise it fires exactly when
    [now - start_ts >= threshold], and a fire records
    [last_fire_ts = now] and makes the zone's scroll call.  Hence, for a
    zone sustained from a tick at [t0] that began the dwell, no fire
    comes before the threshold has elapsed since [t0], and between two
    successive fires at least the cooldown elapses. *)
Theorem scroll_dwell_fire_rule (st : t) (z : string) :
  In z scroll_zones ->
  (forall now : Q,
      active_zone (dwell st) = Some z ->
      (now - last_fire_ts (dwell st) < dwell_cooldown st ->
       _process_dwell st (Some z) now = (st, []))
      /\
      (~ now - last_fire_ts (dwell st) < dwell_cooldown st ->
       (dwell_threshold st <= now - start_ts (dwell st) ->
        _process_dwell st (Some z) now
        = (set_dwell st (mkDwell (Some z) (start_ts (dwell st)) now),
           scroll_action (scroll st) (Some z))
        /\ scroll_action (scroll st) (Some z) <> [])
       /\
       (~ dwell_threshold st <= now - start_ts (dwell st) ->
        _process_dwell st (Some z) now = (st, []))))
  /\
  (forall (t0 : Q) (ts : list Q) (now : Q) (ev : list event),
      active_zone (dwell st) <> Some z ->
      In (now, ev) (sustain st (Some z) (t0 :: ts)) ->
      ev <> [] ->
      dwell_threshold st <= now - t0)
  /\
  (forall (ts : list Q) (t1 t2 : Q) (e1 e2 : list event)
          (l1 l2 l3 : list (Q * list event)),
      sustain st (Some z) ts = l1 ++ (t1, e1) :: l2 ++ (t2, e2) :: l3 ->
      e1 <> [] -> e2 <> [] ->
      (forall x, In x l2 -> snd x = []) ->
      dwell_cooldown st <= t2 - t1).
Proof.
  intros Hz. split; [|split].
  - intros now Ha. rewrite (process_dwell_same st z now Ha). split.
    + intros H. apply Qltb_true in H. now rewrite H.
    + intros H.
      assert (Hc : Qltb (now - last_fire_ts (dwell st)) (dwell_cooldown st)
                   = false).
      { apply Qltb_false. apply Qnot_lt_le. exact H. }
      rewrite Hc. split.
      * intros Ht. apply Qgeb_true in Ht. rewrite Ht.
        split; [reflexivity | now apply scroll_action_nonempty].
      * intros Ht.
        assert (Hg : Qgeb (now - start_ts (dwell st)) (dwell_threshold st)
                     = false).
        { apply Qgeb_false. apply Qnot_le_lt. exact Ht. }
        now rewrite Hg.
  - intros t0 ts now ev Hne Hin Hev. simpl in Hin.
    assert (Hne' : Some z <> active_zone (dwell st)) by congruence.
    rewrite (process_dwell_change st (Some z) t0 Hne') in Hin.
    simpl in Hin. destruct Hin as [Hin | Hin].
    + inversion Hin; subst. now elim Hev.
    + exact (sustain_fire_after_start z ts Hz
               (set_dwell st (mkDwell (Some z) t0 (last_fire_ts (dwell st))))
               now ev eq_refl Hin Hev).
  - intros ts t1 t2 e1 e2 l1 l2 l3 Hs H1 H2 Hq.
    apply (sustain_consecutive_fires z l1 Hz st ts t1 t2 e1 e2 l2 l3
             Hs H1 H2 Hq).
Qed.

(** At threshold 500 ms and cooldown 1000 ms, the zone dwelt on since
    t = 10 s fires at t = 10.5 s and records that time. *)
Lemma scroll_dwell_fire_rule_witness :
  In "scroll_down"%string scroll_zones
  /\ _process_dwell dwelling_example (Some "scroll_down"%string) (21 # 2)
     = (set_dwell dwelling_example
                  (mkDwell (Some "scroll_down"%string) 10 (21 # 2)),
        [MouseEvent 2048 0 0 (-120) 0]).
Proof.
  assert (Hz : In "scroll_down"%string scroll_zones)
    by (right; left; reflexivity).
  split; [exact Hz|].
  destruct (scroll_dwell_fire_rule dwelling_example "scroll_down" Hz)
    as [Hstep _].
  destruct (Hstep (21 # 2) eq_refl) as [_ Hfire].
  assert (Hc : ~ (21 # 2) - last_fire_ts (dwell dwelling_example)
                 < dwell_cooldown dwelling_example)
    by (vm_compute; discriminate).
  assert (Ht : dwell_threshold dwelling_example
               <= (21 # 2) - start_ts (dwell dwelling_example))
    by (vm_compute; discriminate).
  exact (proj1 (proj1 (Hfire Hc) Ht)).
Defined.

(** The timing example: a zone first seen at t = 100 s and sustained at
    100 ms ticks fires at 100.5 s (the sixth tick) and next at 101.5 s. *)
Example sustain_ticks_100ms :
  map made_calls
      (sustain (init config_example) (Some "scroll_down"%string) ticks_100ms)
  = [false; false; false; false; false; true;
     false; false; false; false; false; false; false; false; false; true;
     false].
Proof. vm_compute. reflexivity. Qed.

(** C7: in both dwell machines, an observed target that differs from the
    active one (to or from None included) becomes the active target with
    [start_ts = now], and nothing fires on that tick, whatever
    [last_fire_ts] and the cooldown are. *)
Theorem dwell_change_restarts_timer (st : t) (target : name) (now : Q) :
  (target <> active_zone (dwell st) ->
   _process_dwell st target now
   = (set_dwell st (mkDwell target now (last_fire_ts (dwell st))), []))
  /\
  (target <> active_zone (menu_dwell st) ->
   _process_menu_dwell st target now
   = (false,
      set_menu_dwell st
        (mkDwell target now (last_fire_ts (menu_dwell st))))).
Proof.
  split.
  - apply process_dwell_change.
  - apply process_menu_dwell_change.
Qed.

(** The two targets of this instance: the scroll machine leaves
    "scroll_down" for None, the menu machine leaves None for "pause". *)
Lemma dwell_change_restarts_timer_witness :
  _process_dwell dwelling_example None 11
  = (set_dwell dwelling_example (mkDwell None 11 0), [])
  /\ _process_menu_dwell dwelling_example (Some "pause"%string) 11
     = (false,
        set_menu_dwell dwelling_example
                       (mkDwell (Some "pause"%string) 11 0)).
Proof.
  split.
  - apply (proj1 (dwell_change_restarts_timer dwelling_example None 11)).
    discriminate.
  - apply (proj2 (dwell_change_restarts_timer dwelling_example
                    (Some "pause"%string) 11)).
    discriminate.
Defined.

(** *** The menu-dwell machine *)

(** When [_process_menu_dwell] returns True. *)
Lemma process_menu_dwell_fires (st : t) (action : name) (now : Q) :
  fst (_process_menu_dwell st action now) = true
  <-> action = active_zone (menu_dwell st)
      /\ action <> None
      /\ dwell_threshold st <= now - start_ts (menu_dwell st).
Proof.
  unfold _process_menu_dwell, dwell_threshold.
  destruct (name_eqb action (active_zone (menu_dwell st))) eqn:E; simpl.
  - apply name_eqb_eq in E. destruct action as [a|]; simpl.
    + destruct (Qgeb _ _) eqn:G; simpl.
      * apply Qgeb_true in G. split; [intros _|reflexivity].
        repeat split; [exact E | discriminate | exact G].
      * apply Qgeb_false in G. split; [discriminate|].
        intros (_ & _ & H). qlra.
    + split; [discriminate|]. intros (_ & H & _). now elim H.
  - apply name_eqb_neq in E. split; [discriminate|].
    intros (H & _). contradiction.
Qed.

(** C6, as the code has it: [_process_menu_dwell] returns True exactly
    when the observed action is the active one, is not None and has been
    active for at least the threshold; neither [last_fire_ts] nor the
    cooldown enters the decision.  A fire sets the active target to None
    and changes nothing else, so the tick that follows a fire never
    fires, whatever it observes; if the same action is still observed
    then, that tick restarts the timer, and the action fires again once
    the threshold has elapsed from the restart. *)
Theorem menu_dwell_fire_rule (st : t) (action : name) (now : Q) :
  (fst (_process_menu_dwell st action now) = true
   <-> action = active_zone (menu_dwell st)
       /\ action <> None
       /\ dwell_threshold st <= now - start_ts (menu_dwell st))
  /\
  (forall lf c : Q,
      fst (_process_menu_dwell (with_cooldown_ms (with_menu_last_fire st lf) c)
                               action now)
      = fst (_process_menu_dwell st action now))
  /\
  (fst (_process_menu_dwell st action now) = true ->
   snd (_process_menu_dwell st action now)
   = set_menu_dwell st
       (mkDwell None (start_ts (menu_dwell st))
                (last_fire_ts (menu_dwell st)))
   /\
   (forall (seen : name) (t1 : Q),
       fst (_process_menu_dwell (snd (_process_menu_dwell st action now))
                                seen t1) = false)
   /\
   (forall t1 t2 : Q,
       dwell_threshold st <= t2 - t1 ->
       map snd (sustain_menu (snd (_process_menu_dwell st action now))
                             action [t1; t2])
       = [false; true])).
Proof.
  split; [apply process_menu_dwell_fires | split].
  - intros lf c. unfold _process_menu_dwell. simpl.
    destruct (name_eqb action (active_zone (menu_dwell st))); simpl;
      [|reflexivity].
    destruct action; [|reflexivity].
    destruct (Qgeb _ _); reflexivity.
  - intros Hf.
    pose proof (proj1 (process_menu_dwell_fires st action now) Hf)
      as (Ha & Hn & Ht).
    assert (Hs : snd (_process_menu_dwell st action now)
                 = set_menu_dwell st
                     (mkDwell None (start_ts (menu_dwell st))
                              (last_fire_ts (menu_dwell st)))).
    { unfold _process_menu_dwell in *.
      destruct (name_eqb action (active_zone (menu_dwell st)));
        [|discriminate].
      destruct action; [|discriminate].
      simpl in *. destruct (Qgeb _ _); [reflexivity | discriminate]. }
    split; [exact Hs | split].
    + intros seen t1. rewrite Hs.
      destruct (fst (_process_menu_dwell _ seen t1)) eqn:E; [|reflexivity].
      apply process_menu_dwell_fires in E. simpl in E.
      destruct E as (E1 & E2 & _). contradiction.
    + intros t1 t2 Ht12. rewrite Hs.
      destruct action as [a|]; [|now elim Hn].
      assert (H1 : _process_menu_dwell
                     (set_menu_dwell st
                        (mkDwell None (start_ts (menu_dwell st))
                                 (last_fire_ts (menu_dwell st))))
                     (Some a) t1
                   = (false,
                      set_menu_dwell st
                        (mkDwell (Some a) t1 (last_fire_ts (menu_dwell st))))).
      { reflexivity. }
      cbn [sustain_menu map]. rewrite H1. cbn [fst snd].
      f_equal. f_equal.
      apply process_menu_dwell_fires. simpl.
      repeat split; [discriminate | exact Ht12].
Qed.

(** The menu machine dwelling on "pause" since t = 10 s fires at
    t = 10.5 s, although its last fire is later than the whole dwell. *)
Lemma menu_dwell_fire_rule_witness :
  let st := set_menu_dwell (init config_example)
                           (mkDwell (Some "pause"%string) 10 (41 # 4)) in
  fst (_process_menu_dwell st (Some "pause"%string) (21 # 2)) = true
  /\ snd (_process_menu_dwell st (Some "pause"%string) (21 # 2))
     = set_menu_dwell st (mkDwell None 10 (41 # 4))
  /\ map snd (sustain_menu
                (snd (_process_menu_dwell st (Some "pause"%string) (21 # 2)))
                (Some "pause"%string) [11; 23 # 2])
     = [false; true].
Proof.
  intros st.
  pose proof (menu_dwell_fire_rule st (Some "pause"%string) (21 # 2))
    as (Hiff & _ & Hfire).
  assert (Hf : fst (_process_menu_dwell st (Some "pause"%string) (21 # 2))
               = true).
  { apply Hiff. repeat split; [discriminate | vm_compute; discriminate]. }
  destruct (Hfire Hf) as (Hs & _ & Hre).
  split; [exact Hf | split; [exact Hs|]].
  apply Hre. vm_compute. discriminate.
Defined.

(** C6 as stated fails: with threshold 500 ms, the action "pause"
    observed without interruption at t = 100, 100.5, 101 and 101.5 s
    fires at the second tick and again at the fourth. *)
Lemma menu_dwell_refires_while_sustained :
  map snd (sustain_menu (init config_example) (Some "pause"%string)
                        [100; 201 # 2; 101; 203 # 2])
  = [false; true; false; true]
  /\ ~ (forall (st : t) (action : name) (times : list Q),
          (fires_count (sustain_menu st action times) <= 1)%nat).
Proof.
  split.
  - vm_compute. reflexivity.
  - intros H.
    specialize (H (init config_example) (Some "pause"%string)
                  [100; 201 # 2; 101; 203 # 2]).
    vm_compute in H. lia.
Qed.

(** ** The run loop *)

Lemma smoother_process_menu_dwell (st : t) (a : name) (now : Q) :
  smoother (snd (_process_menu_dwell st a now)) = smoother st.
Proof.
  unfold _process_menu_dwell.
  repeat match goal with
         | |- context [if ?c then _ else _] => destruct c
         | |- context [match ?c with Some _ => _ | None => _ end] =>
             destruct c
         end; reflexivity.
Qed.

Lemma smoother_process_dwell (st : t) (z : name) (now : Q) :
  smoother (fst (_process_dwell st z now)) = smoother st.
Proof.
  unfold _process_dwell.
  repeat match goal with
         | |- context [if ?c then _ else _] => destruct c
         | |- context [match ?c with Some _ => _ | None => _ end] =>
             destruct c
         end; reflexivity.
Qed.

Lemma smoother_scroll_phase (st : t) (p : point) (now : Q) :
  smoother (fst (scroll_phase st p now)) = smoother st.
Proof.
  unfold scroll_phase. destruct (enabled st); [|reflexivity].
  apply smoother_process_dwell.
Qed.

Section LoopFacts.
Context {L : Libs}.

Lemma smoother_run_calibration_on (pts : list (Q * Q)) (st : t)
    (cap : capture) :
  smoother (snd (fst (fst (run_calibration_on pts st cap)))) = smoother st.
Proof.
  unfold run_calibration_on.
  destruct (sweep st pts [] [] cap); [reflexivity|].
  destruct (3 <=? _)%nat; reflexivity.
Qed.

Lemma smoother_dispatch (st : t) (a : name) (cap : capture) :
  smoother (snd (fst (fst (dispatch st a cap)))) = smoother st.
Proof.
  unfold dispatch.
  destruct (name_eqb a (Some "pause"%string)); [reflexivity|].
  destruct (name_eqb a (Some "resume"%string)); [reflexivity|].
  destruct (name_eqb a (Some "recalibrate"%string)).
  - pose proof (smoother_run_calibration_on calibration_points st cap) as H.
    unfold run_calibration.
    destruct (run_calibration_on calibration_points st cap)
      as [[[o st'] cap'] ev]. exact H.
  - destruct (name_eqb a (Some "exit"%string)); reflexivity.
Qed.

(** One loop iteration on a frame with a face, with the intermediate
    values named. *)
Lemma loop_body_face (st : t) (ov : CircularMenuOverlay.t) (f : frame)
    (cap : capture) (lm : landmarks) :
  f_face f = Some lm ->
  loop_body st ov (f :: cap)
  = let g := gaze_point st f lm in
    let st1 := set_smoother st (snd g) in
    let ov1 :=
      if CircularMenuOverlay.is_in_base_circle ov (fst (fst g)) (snd (fst g))
      then CircularMenuOverlay.toggle_expand ov (Some true)
      else ov in
    let action :=
      CircularMenuOverlay.action_at ov1 (fst (fst g)) (snd (fst g)) in
    let ov2 := CircularMenuOverlay.set_hover_action ov1 action in
    let m := _process_menu_dwell st1 action (f_time1 f) in
    let d :=
      if fst m then dispatch (snd m) action cap
      else (false, snd m, cap, []) in
    let st3 := snd (fst (fst d)) in
    if fst (fst (fst d))
    then mkTick true st3 ov2 (snd (fst d)) (snd d)
                (Some (fst g)) action (fst m)
    else
      let s := scroll_phase st3 (fst g) (f_time2 f) in
      mkTick (preview_break (fst s) f) (fst s) ov2 (snd (fst d))
             (snd d ++ snd s) (Some (fst g)) action (fst m).
Proof.
  intros Hf. unfold loop_body. rewrite Hf.
  destruct (gaze_point st f lm) as [p sm]. cbn [fst snd].
  destruct (_process_menu_dwell _ _ _) as [fired st2]. cbn [fst snd].
  destruct (if fired then _ else _) as [[[ex st3] cap2] ev1]. cbn [fst snd].
  destruct ex; [reflexivity|].
  destruct (scroll_phase st3 p (f_time2 f)) as [st4 ev2]. reflexivity.
Qed.

(** The point of an iteration with a face, and the smoother it leaves. *)
Lemma loop_body_gaze (st : t) (ov : CircularMenuOverlay.t) (f : frame)
    (cap : capture) (lm : landmarks) :
  f_face f = Some lm ->
  k_screen_xy (loop_body st ov (f :: cap)) = Some (fst (gaze_point st f lm))
  /\ smoother (k_state (loop_body st ov (f :: cap)))
     = snd (gaze_point st f lm).
Proof.
  intros Hf. rewrite (loop_body_face st ov f cap lm Hf). cbv zeta.
  set (g := gaze_point st f lm).
  set (st1 := set_smoother st (snd g)).
  set (m := _process_menu_dwell st1 _ _).
  assert (Hm : smoother (snd m) = snd g)
    by (unfold m; rewrite smoother_process_menu_dwell; reflexivity).
  set (d := if fst m then _ else _).
  assert (Hd : smoother (snd (fst (fst d))) = snd g).
  { unfold d. destruct (fst m); [|exact Hm].
    rewrite smoother_dispatch. exact Hm. }
  destruct (fst (fst (fst d))); cbn [k_screen_xy k_state].
  - split; [reflexivity | exact Hd].
  - split; [reflexivity|]. rewrite smoother_scroll_phase. exact Hd.
Qed.

End LoopFacts.

(** C1, as the code has it: on every tick with a face, the calibration
    mapping is applied to the raw iris point first and the smoother is
    applied afterwards to the mapped point; the smoothed point is the
    tick's [screen_xy] as it stands, and the smoother keeps a point of
    the mapped screen space. *)
Theorem tick_maps_then_smooths {L : Libs} (st : t)
    (ov : CircularMenuOverlay.t) (cap : capture)
    (w h : positive) (lm : landmarks) (t1 t2 : Q) (key : Z) :
  let f := mkFrame w h (Some lm) t1 t2 key in
  let raw := _compute_iris_center lm (frame_w f) (frame_h f) in
  let mapped := _map_to_screen st raw (frame_w f) (frame_h f) in
  let k := loop_body st ov (f :: cap) in
  k_screen_xy k = Some (fst (GazeSmoother.update (smoother st) mapped))
  /\ smoother (k_state k) = snd (GazeSmoother.update (smoother st) mapped).
Proof.
  intros f raw mapped k.
  exact (loop_body_gaze st ov f cap lm eq_refl).
Qed.

(** C1 as stated fails: raw point (60, 60), a model that doubles each
    coordinate, a smoother with alpha 0.5 and outlier threshold 50 whose
    last point is (100, 100).  The code maps to (120, 120) and blends to
    (110, 110); smoothing the raw point first would reject it as an
    outlier and map the last point to (200, 200). *)
Lemma tick_does_not_smooth_then_map :
  pt_eq (fst (gaze_point doubling_example frame_example landmarks_60))
        (110, 110)
  /\ pt_eq (fst (spec_smooth_map_clamp doubling_example frame_example
                                       landmarks_60))
           (200, 200)
  /\ ~ pt_eq (fst (gaze_point doubling_example frame_example landmarks_60))
             (fst (spec_smooth_map_clamp doubling_example frame_example
                                         landmarks_60)).
Proof.
  split; [|split].
  - vm_compute. split; reflexivity.
  - vm_compute. split; reflexivity.
  - intros [H _]. vm_compute in H. discriminate.
Qed.

(** C8: an iteration whose frame shows no face leaves the controller
    (both dwell states and the smoother among its fields) and the
    overlay as they were and makes no call; so does every iteration of a
    run over frames that all show no face. *)
Theorem no_face_tick_changes_nothing {L : Libs} (st : t)
    (ov : CircularMenuOverlay.t) (cap : capture)
    (w h : positive) (t1 t2 : Q) (key : Z) :
  let k := loop_body st ov (mkFrame w h None t1 t2 key :: cap) in
  (k_state k = st
   /\ dwell (k_state k) = dwell st
   /\ menu_dwell (k_state k) = menu_dwell st
   /\ smoother (k_state k) = smoother st
   /\ k_overlay k = ov
   /\ k_events k = [])
  /\
  (forall (fuel : nat) (frames : capture) (k' : tick),
      Forall (fun f => f_face f = None) frames ->
      In k' (run_loop fuel st ov frames) ->
      k_state k' = st /\ k_overlay k' = ov /\ k_events k' = []).
Proof.
  intros k. split.
  - repeat split.
  - intros fuel. induction fuel as [|n IH]; intros frames k' Hall Hin.
    + destruct Hin.
    + cbn [run_loop] in Hin.
      destruct frames as [|f frames].
      * cbn in Hin. destruct Hin as [<- | []]. repeat split.
      * inversion Hall as [|? ? Hf Hrest]; subst.
        assert (Hk : loop_body st ov (f :: frames)
                     = mkTick (preview_break st f) st ov frames [] None None
                              false).
        { unfold loop_body. rewrite Hf. reflexivity. }
        rewrite Hk in Hin. cbn [k_break k_state k_overlay k_capture] in Hin.
        destruct (preview_break st f).
        -- destruct Hin as [<- | []]. repeat split.
        -- destruct Hin as [<- | Hin]; [repeat split|].
           apply (IH frames k' Hrest Hin).
Qed.

(** Three ticks without a face in mid-dwell: the dwell state stays. *)
Lemma no_face_tick_changes_nothing_witness :
  let nf := mkFrame 640 480 None 11 11 (-1) in
  Forall (fun k' : tick =>
            k_state k' = dwelling_example
            /\ k_overlay k' = CircularMenuOverlay.init 1000 800
            /\ k_events k' = [])
         (@run_loop libs_example 3 dwelling_example
                    (CircularMenuOverlay.init 1000 800) [nf; nf; nf]).
Proof.
  intros nf. apply Forall_forall. intros k' Hin.
  apply (proj2 (@no_face_tick_changes_nothing libs_example dwelling_example
                  (CircularMenuOverlay.init 1000 800) [] 640 480 11 11 (-1))
           3%nat [nf; nf; nf] k').
  - repeat constructor.
  - exact Hin.
Defined.

(** ** Mapping to the screen *)

Lemma clip_bounds (a lo hi : Q) :
  lo <= hi -> lo <= clip a lo hi /\ clip a lo hi <= hi.
Proof.
  intros H. unfold clip. split.
  - apply Q.min_glb; [apply Q.le_max_r | exact H].
  - apply Q.le_min_r.
Qed.

(** The uncalibrated mapping lands in the closed screen rectangle. *)
Lemma map_to_screen_fallback (st : t) (gaze_xy : point) (fw fh : Q) :
  calibration_matrix st = None ->
  0 <= screen_w st -> 0 <= screen_h st ->
  in_screen_rectangle st (_map_to_screen st gaze_xy fw fh).
Proof.
  intros Hm Hw Hh. unfold _map_to_screen. rewrite Hm.
  unfold in_screen_rectangle. cbn [fst snd].
  destruct (clip_bounds (fst gaze_xy / fw) 0 1) as [A1 A2]; [qlra|].
  destruct (clip_bounds (snd gaze_xy / fh) 0 1) as [B1 B2]; [qlra|].
  repeat split; qnra.
Qed.

(** The smoother keeps its output in the rectangle when its input and
    its last point are there and alpha is in [0, 1]. *)
Lemma update_in_rectangle (st : t) (s : GazeSmoother.t) (p : point) :
  0 <= GazeSmoother.alpha s -> GazeSmoother.alpha s <= 1 ->
  (forall l, GazeSmoother.last s = Some l -> in_screen_rectangle st l) ->
  in_screen_rectangle st p ->
  in_screen_rectangle st (fst (GazeSmoother.update s p)).
Proof.
  intros Ha0 Ha1 Hl Hp. unfold GazeSmoother.update.
  destruct (GazeSmoother.last s) as [l|] eqn:E; [|exact Hp].
  specialize (Hl l eq_refl).
  destruct (norm_gt _ _); [exact Hl|].
  unfold in_screen_rectangle in *. cbn [fst snd pt_add pt_scale].
  destruct Hp as [[P1 P2] [P3 P4]]. destruct Hl as [[L1 L2] [L3 L4]].
  repeat split; qnra.
Qed.

(** C2, as the code has it: no clamp is applied between the mapping and
    zone classification.  Without a calibration matrix and with a screen
    of non-negative size, the mapping yields a point of the closed
    rectangle [0, W] x [0, H]; the tick's [screen_xy], the point given to
    [_zone_for_point], is then in that rectangle as well, provided alpha
    is in [0, 1] and the smoother's last point (if any) is in it. *)
Theorem fallback_point_in_screen_rectangle {L : Libs} (st : t)
    (ov : CircularMenuOverlay.t) (cap : capture)
    (w h : positive) (lm : landmarks) (t1 t2 : Q) (key : Z) :
  calibration_matrix st = None ->
  0 <= screen_w st -> 0 <= screen_h st ->
  let f := mkFrame w h (Some lm) t1 t2 key in
  let raw := _compute_iris_center lm (frame_w f) (frame_h f) in
  in_screen_rectangle st (_map_to_screen st raw (frame_w f) (frame_h f))
  /\
  (0 <= GazeSmoother.alpha (smoother st) ->
   GazeSmoother.alpha (smoother st) <= 1 ->
   (forall l, GazeSmoother.last (smoother st) = Some l ->
              in_screen_rectangle st l) ->
   exists p,
     k_screen_xy (loop_body st ov (f :: cap)) = Some p
     /\ in_screen_rectangle st p).
Proof.
  intros Hm Hw Hh f raw.
  pose proof (map_to_screen_fallback st raw (frame_w f) (frame_h f) Hm Hw Hh)
    as Hmap.
  split; [exact Hmap|].
  intros Ha0 Ha1 Hl.
  destruct (loop_body_gaze st ov f cap lm eq_refl) as [Hk _].
  exists (fst (gaze_point st f lm)). split; [exact Hk|].
  unfold gaze_point. now apply update_in_rectangle.
Qed.

(** A fresh, uncalibrated controller on a 1000x800 screen: the first
    tick's point is in the closed screen rectangle. *)
Lemma fallback_point_in_screen_rectangle_witness :
  exists p,
    k_screen_xy (@loop_body libs_example (init config_example)
                            (CircularMenuOverlay.init 1000 800)
                            [frame_example])
    = Some p
    /\ in_screen_rectangle (init config_example) p.
Proof.
  refine (proj2 (@fallback_point_in_screen_rectangle libs_example
                   (init config_example) (CircularMenuOverlay.init 1000 800)
                   [] 640 480 landmarks_60 100 100 (-1) eq_refl _ _)
                _ _ _).
  - vm_compute. discriminate.
  - vm_compute. discriminate.
  - vm_compute. discriminate.
  - vm_compute. discriminate.
  - intros l Hl. discriminate Hl.
Defined.

(** C2 as stated fails.  With a fitted matrix that shifts by -500, the
    raw point (60, 60) gives the tick the point (-440, -440), which is
    classified as it is and starts a "scroll_up" dwell.  Without a
    matrix, a raw point on the right frame edge maps to x = 1000 on a
    screen of width 1000, which is outside [0, 1000). *)
Lemma zone_point_can_be_off_screen :
  let k := @loop_body libs_example shifting_example
                      (CircularMenuOverlay.init 1000 800) [frame_example] in
  (exists p, k_screen_xy k = Some p
             /\ pt_eq p (-440, -440)
             /\ ~ on_screen shifting_example p)
  /\ active_zone (dwell (k_state k)) = Some "scroll_up"%string
  /\ (let p := _map_to_screen (init config_example) (640, 240) 640 480 in
      pt_eq p (1000, 400) /\ ~ on_screen (init config_example) p).
Proof.
  intros k. split; [|split].
  - exists (fst (gaze_point shifting_example frame_example landmarks_60)).
    split; [|split].
    + vm_compute. reflexivity.
    + vm_compute. split; reflexivity.
    + intros [[H _] _]. vm_compute in H. apply H. reflexivity.
  - vm_compute. reflexivity.
  - split.
    + vm_compute. split; reflexivity.
    + intros [[_ H] _]. vm_compute in H. discriminate.
Qed.

(** ** The menu overlay in the run loop *)

Section OverlayFacts.
Context {L : Libs}.

Lemma action_at_collapsed (o : CircularMenuOverlay.t) (x y : Q) :
  CircularMenuOverlay.expanded o = false ->
  CircularMenuOverlay.action_at o x y = None.
Proof.
  intros H. unfold CircularMenuOverlay.action_at. now rewrite H.
Qed.

Lemma base_circle_set_hover (o : CircularMenuOverlay.t) (a : name) (x y : Q) :
  CircularMenuOverlay.is_in_base_circle
    (CircularMenuOverlay.set_hover_action o a) x y
  = CircularMenuOverlay.is_in_base_circle o x y.
Proof.
  unfold CircularMenuOverlay.set_hover_action.
  destruct (negb _); reflexivity.
Qed.

Lemma base_circle_toggle (o : CircularMenuOverlay.t) (e : option bool)
    (x y : Q) :
  CircularMenuOverlay.is_in_base_circle
    (CircularMenuOverlay.toggle_expand o e) x y
  = CircularMenuOverlay.is_in_base_circle o x y.
Proof. destruct e; reflexivity. Qed.

Lemma expanded_set_hover (o : CircularMenuOverlay.t) (a : name) :
  CircularMenuOverlay.expanded (CircularMenuOverlay.set_hover_action o a)
  = CircularMenuOverlay.expanded o.
Proof.
  unfold CircularMenuOverlay.set_hover_action.
  destruct (negb _); reflexivity.
Qed.

(** The overlay an iteration leaves has the base circle it started with. *)
Lemma loop_body_base_circle (st : t) (ov : CircularMenuOverlay.t)
    (cap : capture) (x y : Q) :
  CircularMenuOverlay.is_in_base_circle (k_overlay (loop_body st ov cap)) x y
  = CircularMenuOverlay.is_in_base_circle ov x y.
Proof.
  destruct cap as [|f cap]; [reflexivity|].
  destruct (f_face f) as [lm|] eqn:Hf.
  - rewrite (loop_body_face st ov f cap lm Hf). cbv zeta.
    match goal with
    | |- context [if fst (fst (fst ?d)) then _ else _] =>
        destruct (fst (fst (fst d)))
    end; cbn [k_overlay]; rewrite base_circle_set_hover;
      destruct (CircularMenuOverlay.is_in_base_circle ov _ _);
      try reflexivity; apply base_circle_toggle.
  - unfold loop_body. rewrite Hf. reflexivity.
Qed.

(** An iteration that starts with the overlay collapsed either has its
    point in the base circle, or leaves the overlay collapsed, hits no
    action and fires nothing. *)
Lemma loop_body_collapsed (st : t) (ov : CircularMenuOverlay.t)
    (cap : capture) :
  CircularMenuOverlay.expanded ov = false ->
  (exists p,
      k_screen_xy (loop_body st ov cap) = Some p
      /\ CircularMenuOverlay.is_in_base_circle ov (fst p) (snd p) = true)
  \/
  (CircularMenuOverlay.expanded (k_overlay (loop_body st ov cap)) = false
   /\ k_action (loop_body st ov cap) = None
   /\ k_fired (loop_body st ov cap) = false).
Proof.
  intros Hc. destruct cap as [|f cap]; [right; now repeat split|].
  destruct (f_face f) as [lm|] eqn:Hf.
  - destruct (loop_body_gaze st ov f cap lm Hf) as [Hp _].
    destruct (CircularMenuOverlay.is_in_base_circle ov
                (fst (fst (gaze_point st f lm)))
                (snd (fst (gaze_point st f lm)))) eqn:Hb.
    + left. exists (fst (gaze_point st f lm)). now split.
    + right. rewrite (loop_body_face st ov f cap lm Hf). cbv zeta.
      rewrite Hb. rewrite (action_at_collapsed ov _ _ Hc).
      assert (Hm : fst (_process_menu_dwell
                          (set_smoother st (snd (gaze_point st f lm)))
                          None (f_time1 f)) = false).
      { destruct (fst (_process_menu_dwell _ None (f_time1 f))) eqn:E;
          [|reflexivity].
        apply process_menu_dwell_fires in E.
        destruct E as (_ & E & _). now elim E. }
      rewrite Hm. cbn [fst snd k_overlay k_action k_fired].
      rewrite expanded_set_hover. now repeat split.
  - right. unfold loop_body. rewrite Hf. now repeat split.
Qed.

(** A tick that fired the menu machine had hit an action. *)
Lemma loop_body_fired_action (st : t) (ov : CircularMenuOverlay.t)
    (cap : capture) :
  k_fired (loop_body st ov cap) = true -> k_action (loop_body st ov cap) <> None.
Proof.
  destruct cap as [|f cap]; [discriminate|].
  destruct (f_face f) as [lm|] eqn:Hf.
  - rewrite (loop_body_face st ov f cap lm Hf). cbv zeta.
    match goal with
    | |- context [if fst (fst (fst ?d)) then _ else _] =>
        destruct (fst (fst (fst d)))
    end; cbn [k_fired k_action]; intros E;
      apply process_menu_dwell_fires in E; tauto.
  - unfold loop_body. rewrite Hf. discriminate.
Qed.

(** In a run that starts with the overlay collapsed, a tick that hits a
    menu action comes at or after a tick whose point was in the base
    circle. *)
Lemma run_loop_action_after_base_circle (fuel : nat) :
  forall (st : t) (ov : CircularMenuOverlay.t) (cap : capture)
         (l1 : list tick) (k : tick) (l2 : list tick),
    CircularMenuOverlay.expanded ov = false ->
    run_loop fuel st ov cap = l1 ++ k :: l2 ->
    k_action k <> None ->
    exists k' p,
      In k' (l1 ++ [k])
      /\ k_screen_xy k' = Some p
      /\ CircularMenuOverlay.is_in_base_circle ov (fst p) (snd p) = true.
Proof.
  induction fuel as [|n IH]; intros st ov cap l1 k l2 Hc Hrun Ha.
  - destruct l1; discriminate Hrun.
  - cbn [run_loop] in Hrun.
    set (k0 := loop_body st ov cap) in *.
    assert (Hhd : exists rest, l1 ++ k :: l2 = k0 :: rest).
    { destruct (k_break k0); eexists; symmetry; exact Hrun. }
    destruct (loop_body_collapsed st ov cap Hc)
      as [(p & Hp & Hb) | (Hc' & Hn & _)].
    + exists k0, p. split; [|now split].
      destruct Hhd as [rest Hhd].
      destruct l1 as [|x l1]; cbn in Hhd |- *;
        injection Hhd as -> _; now left.
    + fold k0 in Hc', Hn.
      destruct l1 as [|x l1].
      * destruct Hhd as [rest Hhd]. cbn in Hhd. injection Hhd as -> _.
        contradiction.
      * destruct (k_break k0).
        -- cbn in Hrun. injection Hrun as _ Hrest.
           destruct l1; discriminate Hrest.
        -- cbn in Hrun. injection Hrun as <- Hrest.
           destruct (IH _ _ _ l1 k l2 Hc' Hrest Ha) as (k' & p & Hin & Hp & Hb).
           exists k', p. split; [now right | split; [exact Hp|]].
           unfold k0 in Hb. now rewrite loop_body_base_circle in Hb.
Qed.

(** Every tick of a run that fired the menu machine had hit an action. *)
Lemma run_loop_fired_action (fuel : nat) :
  forall (st : t) (ov : CircularMenuOverlay.t) (cap : capture) (k : tick),
    In k (run_loop fuel st ov cap) ->
    k_fired k = true -> k_action k <> None.
Proof.
  induction fuel as [|n IH]; intros st ov cap k Hin Hf.
  - cbn in Hin. destruct Hin.
  - cbn [run_loop] in Hin.
    destruct (k_break (loop_body st ov cap)).
    + destruct Hin as [<- | []]. now apply loop_body_fired_action.
    + destruct Hin as [<- | Hin]; [now apply loop_body_fired_action|].
      exact (IH _ _ _ k Hin Hf).
Qed.

Lemma menu_dwell_scroll_phase (st : t) (p : point) (now : Q) :
  menu_dwell (fst (scroll_phase st p now)) = menu_dwell st.
Proof.
  unfold scroll_phase. destruct (enabled st); [|reflexivity].
  unfold _process_dwell.
  repeat match goal with
         | |- context [if ?c then _ else _] => destruct c
         | |- context [match ?c with Some _ => _ | None => _ end] =>
             destruct c
         end; reflexivity.
Qed.

Lemma menu_dwell_run_calibration_on (pts : list (Q * Q)) (st : t)
    (cap : capture) :
  menu_dwell (snd (fst (fst (run_calibration_on pts st cap))))
  = menu_dwell st.
Proof.
  unfold run_calibration_on.
  destruct (sweep st pts [] [] cap); [reflexivity|].
  destruct (3 <=? _)%nat; reflexivity.
Qed.

(** An iteration that starts with the overlay collapsed and the menu
    machine idle does not fire; unless its point is in the base circle,
    it leaves the overlay collapsed and the menu machine idle. *)
Lemma loop_body_idle (st : t) (ov : CircularMenuOverlay.t) (cap : capture) :
  CircularMenuOverlay.expanded ov = false ->
  active_zone (menu_dwell st) = None ->
  k_fired (loop_body st ov cap) = false
  /\ ((exists p,
          k_screen_xy (loop_body st ov cap) = Some p
          /\ CircularMenuOverlay.is_in_base_circle ov (fst p) (snd p) = true)
      \/
      (CircularMenuOverlay.expanded (k_overlay (loop_body st ov cap)) = false
       /\ active_zone (menu_dwell (k_state (loop_body st ov cap))) = None)).
Proof.
  intros Hc Hi. destruct cap as [|f cap]; [now split; [|right]|].
  destruct (f_face f) as [lm|] eqn:Hf.
  - destruct (loop_body_gaze st ov f cap lm Hf) as [Hp _].
    split.
    + destruct (k_fired (loop_body st ov (f :: cap))) eqn:E; [|reflexivity].
      exfalso. revert E.
      rewrite (loop_body_face st ov f cap lm Hf). cbv zeta.
      match goal with
      | |- context [if fst (fst (fst ?d)) then _ else _] =>
          destruct (fst (fst (fst d)))
      end; cbn [k_fired]; intros E;
        apply process_menu_dwell_fires in E;
        destruct E as (E1 & E2 & _);
        cbn [menu_dwell set_smoother] in E1; rewrite Hi in E1;
        contradiction.
    + destruct (CircularMenuOverlay.is_in_base_circle ov
                  (fst (fst (gaze_point st f lm)))
                  (snd (fst (gaze_point st f lm)))) eqn:Hb.
      * left. exists (fst (gaze_point st f lm)). now split.
      * right. rewrite (loop_body_face st ov f cap lm Hf). cbv zeta.
        rewrite Hb. rewrite (action_at_collapsed ov _ _ Hc).
        assert (Hm : _process_menu_dwell
                       (set_smoother st (snd (gaze_point st f lm)))
                       None (f_time1 f)
                     = (false, set_smoother st (snd (gaze_point st f lm)))).
        { unfold _process_menu_dwell. cbn [menu_dwell set_smoother].
          rewrite Hi. reflexivity. }
        rewrite Hm. cbn [fst snd k_overlay k_state].
        rewrite expanded_set_hover, menu_dwell_scroll_phase.
        now split.
  - unfold loop_body. rewrite Hf. split; [reflexivity | right; now split].
Qed.

(** In a run that starts with the overlay collapsed and the menu machine
    idle, a tick that fires the menu machine comes strictly after a tick
    whose point was in the base circle. *)
Lemma run_loop_fire_after_base_circle (fuel : nat) :
  forall (st : t) (ov : CircularMenuOverlay.t) (cap : capture)
         (l1 : list tick) (k : tick) (l2 : list tick),
    CircularMenuOverlay.expanded ov = false ->
    active_zone (menu_dwell st) = None ->
    run_loop fuel st ov cap = l1 ++ k :: l2 ->
    k_fired k = true ->
    exists k' p,
      In k' l1
      /\ k_screen_xy k' = Some p
      /\ CircularMenuOverlay.is_in_base_circle ov (fst p) (snd p) = true.
Proof.
  induction fuel as [|n IH]; intros st ov cap l1 k l2 Hc Hi Hrun Hf.
  - destruct l1; discriminate Hrun.
  - cbn [run_loop] in Hrun.
    destruct (loop_body_idle st ov cap Hc Hi) as [Hnf Hcases].
    set (k0 := loop_body st ov cap) in *.
    destruct l1 as [|x l1].
    + assert (k = k0)
        by (destruct (k_break k0); cbn in Hrun; now injection Hrun).
      subst k. congruence.
    + destruct (k_break k0).
      * cbn in Hrun. injection Hrun as _ Hrest.
        destruct l1; discriminate Hrest.
      * cbn in Hrun. injection Hrun as <- Hrest.
        destruct Hcases as [(p & Hp & Hb) | (Hc' & Hi')].
        -- exists k0, p. split; [now left | now split].
        -- destruct (IH _ _ _ l1 k l2 Hc' Hi' Hrest Hf)
             as (k' & p & Hin & Hp & Hb).
           exists k', p. split; [now right | split; [exact Hp|]].
           unfold k0 in Hb. now rewrite loop_body_base_circle in Hb.
Qed.

End OverlayFacts.

(** C10: while the overlay is not expanded, [action_at] returns None at
    every point.  In the run loop only a tick whose point lies in the
    base circle expands the overlay; so in a run, which starts with the
    overlay collapsed, every tick that hits a menu action is the same as
    or later than a tick whose point was in the base circle, and, the
    menu machine being idle at the start, every tick that fires the menu
    machine is strictly later than such a tick. *)
Theorem menu_action_needs_base_circle {L : Libs} :
  (forall (o : CircularMenuOverlay.t) (x y : Q),
      CircularMenuOverlay.expanded o = false ->
      CircularMenuOverlay.action_at o x y = None)
  /\
  (forall (st : t) (ov : CircularMenuOverlay.t) (cap : capture),
      CircularMenuOverlay.expanded ov = false ->
      ~ (exists p,
            k_screen_xy (loop_body st ov cap) = Some p
            /\ CircularMenuOverlay.is_in_base_circle ov (fst p) (snd p)
               = true) ->
      CircularMenuOverlay.expanded (k_overlay (loop_body st ov cap)) = false
      /\ k_action (loop_body st ov cap) = None
      /\ k_fired (loop_body st ov cap) = false)
  /\
  (forall (st : t) (opened : bool) (sw sh : Z) (cap : capture)
          (l1 : list tick) (k : tick) (l2 : list tick),
      snd (run st opened sw sh cap) = l1 ++ k :: l2 ->
      k_action k <> None \/ k_fired k = true ->
      exists k' p,
        In k' (l1 ++ [k])
        /\ k_screen_xy k' = Some p
        /\ CircularMenuOverlay.is_in_base_circle
             (CircularMenuOverlay.init sw sh) (fst p) (snd p) = true)
  /\
  (forall (st : t) (opened : bool) (sw sh : Z) (cap : capture)
          (l1 : list tick) (k : tick) (l2 : list tick),
      active_zone (menu_dwell st) = None ->
      snd (run st opened sw sh cap) = l1 ++ k :: l2 ->
      k_fired k = true ->
      exists k' p,
        In k' l1
        /\ k_screen_xy k' = Some p
        /\ CircularMenuOverlay.is_in_base_circle
             (CircularMenuOverlay.init sw sh) (fst p) (snd p) = true).
Proof.
  split; [exact action_at_collapsed | split; [|split]].
  - intros st ov cap Hc Hno.
    destruct (loop_body_collapsed st ov cap Hc) as [Hin | H];
      [contradiction | exact H].
  - intros st opened sw sh cap l1 k l2 Hrun Hk.
    unfold run in Hrun. destruct opened; cbn [negb] in Hrun.
    + destruct (if calibration_enabled (config st) && _ then _ else _)
        as [[st1 cap1] ev] in Hrun.
      cbn [snd] in Hrun.
      assert (Ha : k_action k <> None).
      { destruct Hk as [Hk | Hk]; [exact Hk|].
        apply (run_loop_fired_action (S (List.length cap1)) st1
                 (CircularMenuOverlay.init sw sh) cap1 k); [|exact Hk].
        rewrite Hrun. apply in_or_app. right. now left. }
      exact (run_loop_action_after_base_circle _ st1
               (CircularMenuOverlay.init sw sh) cap1 l1 k l2 eq_refl Hrun Ha).
    + cbn in Hrun. destruct l1; discriminate Hrun.
  - intros st opened sw sh cap l1 k l2 Hi Hrun Hf.
    unfold run in Hrun. destruct opened; cbn [negb] in Hrun.
    + assert (Hst : forall b : bool,
                 active_zone
                   (menu_dwell
                      (fst (fst
                         (if b
                          then let '(_, st', cap', ev) :=
                                 run_calibration st cap in (st', cap', ev)
                          else (st, cap, [])))))
                 = None).
      { intros [|]; [|exact Hi].
        pose proof (menu_dwell_run_calibration_on calibration_points st cap)
          as H.
        unfold run_calibration.
        destruct (run_calibration_on calibration_points st cap)
          as [[[o st'] cap'] ev].
        cbn [fst snd] in H |- *. now rewrite H. }
      specialize (Hst (calibration_enabled (config st)
                       && match calibration_matrix st with
                          | None => true
                          | Some _ => false
                          end)).
      destruct (if calibration_enabled (config st) && _ then _ else _)
        as [[st1 cap1] ev] in Hrun, Hst.
      cbn [fst snd] in Hrun, Hst.
      exact (run_loop_fire_after_base_circle _ st1
               (CircularMenuOverlay.init sw sh) cap1 l1 k l2
               eq_refl Hst Hrun Hf).
    + cbn in Hrun. destruct l1; discriminate Hrun.
Qed.

(** A first tick on the "pause" ring item (centre of the overlay of a
    1000x800 screen is (880, 400), the item is 64 px above it): the
    overlay is still collapsed, no action is hit; and a tick with the
    point in the base circle expands it. *)
Lemma menu_action_needs_base_circle_witness :
  CircularMenuOverlay.action_at (L := libs_example)
    (CircularMenuOverlay.init 1000 800) 880 336 = None
  /\ CircularMenuOverlay.action_at (L := libs_example)
       (CircularMenuOverlay.toggle_expand
          (CircularMenuOverlay.init 1000 800) (Some true)) 880 336
     = Some "pause"%string.
Proof.
  split.
  - apply (proj1 (@menu_action_needs_base_circle libs_example)).
    reflexivity.
  - vm_compute. reflexivity.
Defined.

(** ** Calibration *)

Lemma capture_target_augmented (st : t) (nx ny : Q) (cap : capture) :
  forall (d : option Q) (s : vec3) (tg : Q * Q) (cap' : capture),
    capture_target st nx ny d cap = Some (s, tg, cap') ->
    exists p, s = augment p.
Proof.
  induction cap as [|f cap IH]; intros d s tg cap' H; [discriminate|].
  cbn [capture_target] in H.
  destruct (f_face f) as [lm|]; [|exact (IH _ _ _ _ H)].
  destruct (Qle_bool _ 40 && Qle_bool _ 40); [|exact (IH _ _ _ _ H)].
  destruct d as [d|]; [|exact (IH _ _ _ _ H)].
  destruct (Qgeb _ _); [|exact (IH _ _ _ _ H)].
  injection H as <- _ _. eexists (_, _). reflexivity.
Qed.

(** A sweep that runs to its end has gathered one row per target, each
    sample row a raw point with a constant 1. *)
Lemma sweep_collected (st : t) (pts : list (Q * Q)) :
  forall (raws : list point) (tgs : list (Q * Q)) (cap : capture)
         (A : list vec3) (B : list (Q * Q)) (cap' : capture),
    sweep st pts (map augment raws) tgs cap = Collected A B cap' ->
    (exists raws', A = map augment raws')
    /\ List.length A = (List.length raws + List.length pts)%nat
    /\ List.length B = (List.length tgs + List.length pts)%nat.
Proof.
  induction pts as [|[nx ny] pts IH]; intros raws tgs cap A B cap' H.
  - cbn in H. injection H as <- <- _. rewrite length_map, !Nat.add_0_r.
    split; [now exists raws | now split].
  - cbn [sweep] in H.
    destruct (capture_target st nx ny None cap) as [[[s tg] c]|] eqn:E;
      [|discriminate].
    destruct (capture_target_augmented st nx ny cap None s tg c E) as [p ->].
    replace (map augment raws ++ [augment p])
      with (map augment (raws ++ [p])) in H
      by (rewrite map_app; reflexivity).
    destruct (IH _ _ _ _ _ _ H) as (Hr & HA & HB).
    rewrite !length_app in HA, HB. cbn in HA, HB |- *.
    split; [exact Hr | split; lia].
Qed.

(** A sweep left by a failed read has gathered fewer rows than there
    are targets. *)
Lemma sweep_aborted (st : t) (pts : list (Q * Q)) :
  forall (s : list vec3) (tgs : list (Q * Q)) (cap : capture)
         (A : list vec3) (B : list (Q * Q)),
    sweep st pts s tgs cap = Aborted A B ->
    (List.length A < List.length s + List.length pts)%nat.
Proof.
  induction pts as [|[nx ny] pts IH]; intros s tgs cap A B H.
  - discriminate.
  - cbn [sweep] in H.
    destruct (capture_target st nx ny None cap) as [[[s1 tg] c]|].
    + apply IH in H. rewrite length_app in H. cbn in H |- *. lia.
    + injection H as <- _. cbn. lia.
Qed.

Lemma residual_nonneg (A : list vec3) :
  forall (b : list Q) (x : vec3), 0 <= residual A b x.
Proof.
  induction A as [|a A IH]; intros [|bi b] x; cbn [residual]; try qlra.
  specialize (IH b x). generalize dependent (dot3 a x - bi).
  intros d. qnra.
Qed.

(** The affine map itself leaves no residual on its own image. *)
Lemma residual_affine_image (M : mat23) (A : list vec3) (B : list (Q * Q)) :
  affine_image M A B ->
  residual A (map fst B) (fst M) == 0 /\ residual A (map snd B) (snd M) == 0.
Proof.
  unfold affine_image. induction 1 as [|a b A B [Hx Hy] _ [IHx IHy]].
  - split; reflexivity.
  - cbn [map residual]. rewrite IHx, IHy.
    assert (E1 : dot3 a (fst M) == dot3 (fst M) a)
      by (destruct a as [[? ?] ?], (fst M) as [[? ?] ?]; cbn; ring).
    assert (E2 : dot3 a (snd M) == dot3 (snd M) a)
      by (destruct a as [[? ?] ?], (snd M) as [[? ?] ?]; cbn; ring).
    rewrite E1, E2, Hx, Hy. split; ring.
Qed.

(** A solution without residual reproduces every entry. *)
Lemma residual_zero_exact (A : list vec3) :
  forall (b : list Q) (x : vec3),
    List.length A = List.length b ->
    residual A b x <= 0 ->
    Forall2 (fun a bi => dot3 a x == bi) A b.
Proof.
  induction A as [|a A IH]; intros [|bi b] x Hlen Hr; try discriminate.
  - constructor.
  - cbn [residual] in Hr. injection Hlen as Hlen.
    pose proof (residual_nonneg A b x) as Hn.
    remember (dot3 a x - bi) as d eqn:Hd.
    assert (Hdd : 0 <= d * d) by qnra.
    constructor.
    + assert (H0 : d == 0).
      { destruct (Qeq_dec d 0) as [E | E]; [exact E|].
        exfalso.
        assert (0 < d * d); [|qlra].
        destruct (Qlt_le_dec d 0) as [q | q]; [qnra|].
        assert (0 < d)
          by (apply Qle_lteq in q; destruct q as [q | q];
              [exact q | symmetry in q; contradiction]).
        qnra. }
      rewrite Hd in H0. qlra.
    + apply IH; [exact Hlen | qlra].
Qed.

Lemma dot3_comm (u v : vec3) : dot3 u v == dot3 v u.
Proof. destruct u as [[? ?] ?], v as [[? ?] ?]. cbn. ring. Qed.

(** Applying the transposed solution to a raw point is the product of
    its design-matrix row with the two solution columns. *)
Lemma map_to_screen_fitted (st : t) (X : mat32) (p : point) (fw fh : Q) :
  _map_to_screen (set_calibration_matrix st (transpose X)) p fw fh
  = (dot3 (channel_x X) (augment p), dot3 (channel_y X) (augment p)).
Proof. destruct p as [x y]. reflexivity. Qed.

Lemma fit_exact_on_samples (st : t) (X : mat32) (fw fh : Q)
    (raws : list point) :
  forall B : list (Q * Q),
    Forall2 (fun a bi => dot3 a (channel_x X) == bi)
            (map augment raws) (map fst B) ->
    Forall2 (fun a bi => dot3 a (channel_y X) == bi)
            (map augment raws) (map snd B) ->
    Forall2 (fun p b =>
               pt_eq (_map_to_screen
                        (set_calibration_matrix st (transpose X)) p fw fh) b)
            raws B.
Proof.
  induction raws as [|p raws IH]; intros [|b B] Hx Hy;
    try (inversion Hx; fail).
  - constructor.
  - cbn [map] in Hx, Hy.
    inversion Hx as [|? ? ? ? Hx1 Hx2]; subst.
    inversion Hy as [|? ? ? ? Hy1 Hy2]; subst.
    constructor; [|exact (IH B Hx2 Hy2)].
    rewrite map_to_screen_fitted. split; cbn [fst snd].
    + rewrite dot3_comm. exact Hx1.
    + rewrite dot3_comm. exact Hy1.
Qed.

(** C4: [run_calibration] fits by least squares, one solution column
    per output channel, on the design matrix whose rows are the raw
    points with a constant 1, and stores the transposed 3x2 solution as
    the 2x3 calibration matrix.  When [lstsq] returns a least-squares
    solution (numpy's contract) and the targets are the image of at least
    three raw points under an affine map, the stored model maps every raw
    sample point to its target (exactly, in rational arithmetic). *)
Theorem calibration_fit_reproduces_targets {L : Libs} (st : t)
    (raws : list point) (B : list (Q * Q)) (M : mat23) :
  let A := map augment raws in
  let fitted := transpose (lstsq A B) in
  least_squares A B (lstsq A B) ->
  affine_image M A B ->
  (3 <= List.length raws)%nat ->
  (forall (pts : list (Q * Q)) (cap cap' : capture),
      sweep st pts [] [] cap = Collected A B cap' ->
      run_calibration_on pts st cap
      = (ReturnsNone, set_calibration_matrix st fitted, cap',
         [WriteConfig fitted]))
  /\
  (forall (pts : list (Q * Q)) (cap cap' : capture)
          (A' : list vec3) (B' : list (Q * Q)),
      sweep st pts [] [] cap = Collected A' B' cap' ->
      (exists raws', A' = map augment raws')
      /\ List.length A' = List.length pts
      /\ List.length B' = List.length pts)
  /\
  (forall fw fh : Q,
      Forall2 (fun p b =>
                 pt_eq (_map_to_screen (set_calibration_matrix st fitted)
                                       p fw fh) b)
              raws B).
Proof.
  intros A fitted Hls Haff Hlen. split; [|split].
  - intros pts cap cap' Hs. unfold run_calibration_on. rewrite Hs.
    assert (Hl : (3 <=? List.length A)%nat = true).
    { apply Nat.leb_le. unfold A. now rewrite length_map. }
    rewrite Hl. reflexivity.
  - intros pts cap cap' A' B' Hs.
    exact (sweep_collected st pts [] [] cap A' B' cap' Hs).
  - intros fw fh.
    destruct (residual_affine_image M A B Haff) as [Rx Ry].
    assert (HAB : List.length A = List.length B)
      by (exact (Forall2_length Haff)).
    apply fit_exact_on_samples.
    + apply residual_zero_exact; [now rewrite (length_map fst)|].
      destruct (Hls (fst M)) as [H _]. fold A. qlra.
    + apply residual_zero_exact; [now rewrite (length_map snd)|].
      destruct (Hls (snd M)) as [_ H]. fold A. qlra.
Qed.

(** Five synthetic correspondences under (x, y) |-> (2x + y + 10,
    3y - x + 5), fitted through the normal equations: the stored model
    maps each raw point to its target. *)
Lemma calibration_fit_reproduces_targets_witness :
  Forall2 (fun p b =>
             pt_eq (_map_to_screen
                      (set_calibration_matrix (init config_example)
                         (transpose
                            (lstsq_normal (map augment raw_points_example)
                                          targets_example)))
                      p 640 480) b)
          raw_points_example targets_example.
Proof.
  refine (proj2 (proj2
            (@calibration_fit_reproduces_targets libs_example
               (init config_example) raw_points_example targets_example
               affine_example _ _ _)) 640 480).
  - intros v. split.
    + apply Qle_trans with 0; [|apply residual_nonneg].
      vm_compute. discriminate.
    + apply Qle_trans with 0; [|apply residual_nonneg].
      vm_compute. discriminate.
  - unfold affine_image. repeat constructor; vm_compute; reflexivity.
  - vm_compute. lia.
Defined.

(** The sweep over the example camera ends with five correspondences and
    the fit stores the scaling from the 640x480 frame to the 1000x800
    screen. *)
Example run_calibration_example :
  calibration_matrix
    (snd (fst (fst (@run_calibration libs_example (init config_example)
                                     calibration_stream))))
  = Some ((25 # 16, 0, 0), (0, 5 # 3, 0)).
Proof. vm_compute. reflexivity. Qed.

(** C3, as the code has it: [run_calibration] returns None on every
    path and reports nothing.  A run that gathers fewer than three
    correspondences leaves the controller, its calibration matrix
    included, unchanged and writes no configuration; a sweep that ends
    with at least three fits by least squares, stores the transposed
    solution and writes it; only such a run writes anything.  With the
    five fixed targets a sweep that ends has five correspondences, and
    fewer are gathered only by a sweep that a failed read cut short. *)
Theorem calibration_below_three_leaves_model {L : Libs} (st : t)
    (pts : list (Q * Q)) (cap : capture) :
  fst (fst (fst (run_calibration_on pts st cap))) = ReturnsNone
  /\
  ((List.length (fst (gathered (sweep st pts [] [] cap))) < 3)%nat ->
   snd (fst (fst (run_calibration_on pts st cap))) = st
   /\ snd (run_calibration_on pts st cap) = [])
  /\
  (forall (A : list vec3) (B : list (Q * Q)) (cap' : capture),
      sweep st pts [] [] cap = Collected A B cap' ->
      (3 <= List.length A)%nat ->
      run_calibration_on pts st cap
      = (ReturnsNone, set_calibration_matrix st (transpose (lstsq A B)),
         cap', [WriteConfig (transpose (lstsq A B))]))
  /\
  (snd (run_calibration_on pts st cap) <> [] ->
   (3 <= List.length (fst (gathered (sweep st pts [] [] cap))))%nat)
  /\
  (forall (A : list vec3) (B : list (Q * Q)),
      (forall cap', sweep st calibration_points [] [] cap
                    = Collected A B cap' -> List.length A = 5%nat)
      /\ (sweep st calibration_points [] [] cap = Aborted A B ->
          (List.length A < 5)%nat
          /\ run_calibration st cap = (ReturnsNone, st, [], []))).
Proof.
  split; [|split; [|split; [|split]]].
  - unfold run_calibration_on.
    destruct (sweep st pts [] [] cap); [reflexivity|].
    destruct (3 <=? _)%nat; reflexivity.
  - intros Hlt. unfold run_calibration_on.
    destruct (sweep st pts [] [] cap) as [A B | A B c];
      [split; reflexivity|].
    cbn [gathered fst] in Hlt.
    apply Nat.leb_gt in Hlt. rewrite Hlt. split; reflexivity.
  - intros A B cap' Hs Hlen. unfold run_calibration_on. rewrite Hs.
    apply Nat.leb_le in Hlen. rewrite Hlen. reflexivity.
  - unfold run_calibration_on.
    destruct (sweep st pts [] [] cap) as [A B | A B c]; cbn [snd].
    + intros H. now elim H.
    + cbn [gathered fst]. destruct (3 <=? List.length A)%nat eqn:E.
      * intros _. now apply Nat.leb_le.
      * intros H. now elim H.
  - intros A B. split.
    + intros cap' Hs.
      destruct (sweep_collected st calibration_points [] [] cap A B cap' Hs)
        as (_ & H & _). exact H.
    + intros Hs. split.
      * exact (sweep_aborted st calibration_points [] [] cap A B Hs).
      * unfold run_calibration, run_calibration_on. now rewrite Hs.
Qed.

(** The camera that fails after the second dot: two correspondences,
    nothing changes. *)
Lemma calibration_below_three_leaves_model_witness :
  snd (fst (fst (@run_calibration_on libs_example calibration_points
                   (init config_example) short_stream)))
  = init config_example
  /\ snd (@run_calibration_on libs_example calibration_points
            (init config_example) short_stream) = [].
Proof.
  apply (proj1 (proj2 (@calibration_below_three_leaves_model libs_example
                         (init config_example) calibration_points
                         short_stream))).
  vm_compute. lia.
Defined.

(** C3 as stated fails: a run that gathers two correspondences hands its
    caller the same None as a run that gathers five and fits; nothing
    is raised and nothing is written. *)
Lemma short_calibration_reports_nothing :
  List.length (fst (gathered (sweep (init config_example) calibration_points
                                    [] [] short_stream))) = 2%nat
  /\ fst (fst (fst (@run_calibration libs_example (init config_example)
                                     short_stream))) = ReturnsNone
  /\ fst (fst (fst (@run_calibration libs_example (init config_example)
                                     calibration_stream))) = ReturnsNone
  /\ snd (@run_calibration libs_example (init config_example) short_stream)
     = []
  /\ ~ (forall (st : t) (cap : capture),
          (List.length (fst (gathered (sweep st calibration_points
                                             [] [] cap))) < 3)%nat ->
          exists msg,
            fst (fst (fst (@run_calibration libs_example st cap)))
            = Raises msg).
Proof.
  split; [vm_compute; reflexivity|].
  split; [vm_compute; reflexivity|].
  split; [vm_compute; reflexivity|].
  split; [vm_compute; reflexivity|].
  intros H.
  destruct (H (init config_example) short_stream) as [msg Hm].
  - vm_compute. lia.
  - vm_compute in Hm. discriminate.
Qed.

(** ** The run loop ends *)

Lemma capture_target_shorter (st : t) (nx ny : Q) (cap : capture) :
  forall (d : option Q) (s : vec3) (tg : Q * Q) (cap' : capture),
    capture_target st nx ny d cap = Some (s, tg, cap') ->
    (List.length cap' < List.length cap)%nat.
Proof.
  induction cap as [|f cap IH]; intros d s tg cap' H; [discriminate|].
  cbn [capture_target] in H. cbn [List.length].
  destruct (f_face f) as [lm|];
    [|apply IH in H; lia].
  destruct (Qle_bool _ 40 && Qle_bool _ 40); [|apply IH in H; lia].
  destruct d as [d|]; [|apply IH in H; lia].
  destruct (Qgeb _ _); [|apply IH in H; lia].
  injection H as _ _ <-. lia.
Qed.

Lemma sweep_shorter (st : t) (pts : list (Q * Q)) :
  forall (s : list vec3) (tgs : list (Q * Q)) (cap : capture)
         (A : list vec3) (B : list (Q * Q)) (cap' : capture),
    sweep st pts s tgs cap = Collected A B cap' ->
    (List.length cap' <= List.length cap)%nat.
Proof.
  induction pts as [|[nx ny] pts IH]; intros s tgs cap A B cap' H.
  - cbn in H. injection H as _ _ <-. lia.
  - cbn [sweep] in H.
    destruct (capture_target st nx ny None cap) as [[[s1 tg] c]|] eqn:E;
      [|discriminate].
    apply capture_target_shorter in E. apply IH in H. lia.
Qed.

Section LoopEnds.
Context {L : Libs}.

Lemma run_calibration_on_capture (pts : list (Q * Q)) (st : t)
    (cap : capture) :
  (List.length (snd (fst (run_calibration_on pts st cap)))
   <= List.length cap)%nat.
Proof.
  unfold run_calibration_on.
  destruct (sweep st pts [] [] cap) as [A B | A B c] eqn:E.
  - cbn. lia.
  - apply sweep_shorter in E. destruct (3 <=? _)%nat; cbn; exact E.
Qed.

Lemma dispatch_capture (st : t) (a : name) (cap : capture) :
  (List.length (snd (fst (dispatch st a cap))) <= List.length cap)%nat.
Proof.
  unfold dispatch.
  destruct (name_eqb a (Some "pause"%string)); [cbn; lia|].
  destruct (name_eqb a (Some "resume"%string)); [cbn; lia|].
  destruct (name_eqb a (Some "recalibrate"%string)).
  - pose proof (run_calibration_on_capture calibration_points st cap) as H.
    unfold run_calibration.
    destruct (run_calibration_on calibration_points st cap)
      as [[[o st'] cap'] ev]. exact H.
  - destruct (name_eqb a (Some "exit"%string)); cbn; lia.
Qed.

(** An iteration that stays in the loop has consumed a frame. *)
Lemma loop_body_consumes (st : t) (ov : CircularMenuOverlay.t)
    (cap : capture) :
  k_break (loop_body st ov cap) = false ->
  (List.length (k_capture (loop_body st ov cap)) < List.length cap)%nat.
Proof.
  destruct cap as [|f cap]; [discriminate|].
  destruct (f_face f) as [lm|] eqn:Hf.
  - rewrite (loop_body_face st ov f cap lm Hf). cbv zeta.
    set (m := _process_menu_dwell _ _ _).
    set (d := if fst m then _ else _).
    assert (Hd : (List.length (snd (fst d)) <= List.length cap)%nat).
    { unfold d. destruct (fst m); [apply dispatch_capture | cbn; lia]. }
    destruct (fst (fst (fst d))); cbn [k_break k_capture List.length];
      [discriminate | intros _; lia].
  - unfold loop_body. rewrite Hf. cbn. lia.
Qed.

(** With more fuel than frames, the loop is left by a [break]: the
    iterations before the last one stay in the loop, the last leaves it. *)
Lemma run_loop_leaves (fuel : nat) :
  forall (st : t) (ov : CircularMenuOverlay.t) (cap : capture),
    (List.length cap < fuel)%nat ->
    exists (l : list tick) (k : tick),
      run_loop fuel st ov cap = l ++ [k]
      /\ k_break k = true
      /\ Forall (fun x => k_break x = false) l.
Proof.
  induction fuel as [|n IH]; intros st ov cap Hlen; [lia|].
  cbn [run_loop].
  destruct (k_break (loop_body st ov cap)) eqn:E.
  - exists [], (loop_body st ov cap). now repeat split.
  - pose proof (loop_body_consumes st ov cap E) as Hc.
    destruct (IH (k_state (loop_body st ov cap))
                 (k_overlay (loop_body st ov cap))
                 (k_capture (loop_body st ov cap)))
      as (l & k & Hrun & Hk & Hl); [lia|].
    exists (loop_body st ov cap :: l), k. rewrite Hrun.
    split; [reflexivity | split; [exact Hk|]].
    constructor; [exact E | exact Hl].
Qed.

End LoopEnds.

(** * Further properties of the code *)

(** ** GazeSmoother *)

(** X1: whatever the smoother held, the point [update] returns is the
    point it holds afterwards, and [alpha] and [outlier_px] are never
    changed. *)
Theorem update_returns_what_it_stores (s : GazeSmoother.t) (p : point) :
  GazeSmoother.last (snd (GazeSmoother.update s p))
  = Some (fst (GazeSmoother.update s p))
  /\ GazeSmoother.alpha (snd (GazeSmoother.update s p)) = GazeSmoother.alpha s
  /\ GazeSmoother.outlier_px (snd (GazeSmoother.update s p))
     = GazeSmoother.outlier_px s.
Proof.
  unfold GazeSmoother.update.
  destruct (GazeSmoother.last s) as [l|] eqn:E.
  - destruct (norm_gt _ _); cbn; [rewrite E|]; now repeat split.
  - now repeat split.
Qed.

Lemma blend_between (a x y : Q) :
  0 <= a -> a <= 1 ->
  Qmin x y <= a * x + (1 - a) * y /\ a * x + (1 - a) * y <= Qmax x y.
Proof.
  intros H0 H1.
  pose proof (Q.le_min_l x y) as M1. pose proof (Q.le_min_r x y) as M2.
  pose proof (Q.le_max_l x y) as N1. pose proof (Q.le_max_r x y) as N2.
  generalize dependent (Qmin x y). generalize dependent (Qmax x y).
  intros hi N1 N2 lo M1 M2.
  assert (0 <= a * (x - lo)) by (apply Qmult_le_0_compat; qlra).
  assert (0 <= (1 - a) * (y - lo)) by (apply Qmult_le_0_compat; qlra).
  assert (0 <= a * (hi - x)) by (apply Qmult_le_0_compat; qlra).
  assert (0 <= (1 - a) * (hi - y)) by (apply Qmult_le_0_compat; qlra).
  split; qlra.
Qed.

(** X2: with alpha in [0, 1] the smoother never overshoots: each
    coordinate of the returned point lies between that coordinate of the
    input and of the last point. *)
Theorem update_between_input_and_last (s : GazeSmoother.t) (l p : point) :
  GazeSmoother.last s = Some l ->
  0 <= GazeSmoother.alpha s -> GazeSmoother.alpha s <= 1 ->
  let q := fst (GazeSmoother.update s p) in
  (Qmin (fst p) (fst l) <= fst q /\ fst q <= Qmax (fst p) (fst l))
  /\ (Qmin (snd p) (snd l) <= snd q /\ snd q <= Qmax (snd p) (snd l)).
Proof.
  intros Hl H0 H1. unfold GazeSmoother.update. rewrite Hl.
  destruct (norm_gt _ _); cbn [fst snd pt_add pt_scale].
  - repeat split;
      first [apply Q.le_min_r | apply Q.le_max_r].
  - split; apply blend_between; assumption.
Qed.

Lemma update_between_input_and_last_witness :
  let q := fst (GazeSmoother.update smoother_example (110, 90)) in
  (Qmin 110 100 <= fst q /\ fst q <= Qmax 110 100)
  /\ (Qmin 90 100 <= snd q /\ snd q <= Qmax 90 100).
Proof.
  apply (update_between_input_and_last smoother_example (100, 100) (110, 90)).
  - reflexivity.
  - vm_compute. discriminate.
  - vm_compute. discriminate.
Defined.

(** A negative threshold is exceeded by every distance. *)
Lemma norm_gt_negative (v : point) (r : Q) : r < 0 -> norm_gt v r = true.
Proof.
  intros H. unfold norm_gt. apply Qltb_true in H. now rewrite H.
Qed.

(** X3: with a negative outlier threshold the smoother is frozen on its
    stored point: every later sample is rejected, whatever it is; fed
    any sequence of points it returns the stored point each time and
    stays as it was. *)
Theorem negative_threshold_freezes (s : GazeSmoother.t) (l : point)
    (ps : list point) :
  GazeSmoother.last s = Some l ->
  GazeSmoother.outlier_px s < 0 ->
  smooth_all s ps = (map (fun _ => l) ps, s).
Proof.
  intros Hl Hneg. induction ps as [|p ps IH]; [reflexivity|].
  cbn [smooth_all map].
  assert (Hu : GazeSmoother.update s p = (l, s)).
  { unfold GazeSmoother.update. rewrite Hl.
    now rewrite (norm_gt_negative _ _ Hneg). }
  rewrite Hu. cbn [fst snd]. rewrite IH. reflexivity.
Qed.

Lemma negative_threshold_freezes_witness :
  smooth_all (GazeSmoother.mk (1 # 2) (-1) (Some (100, 100)))
             [(100, 100); (101, 100); (500, 7)]
  = ([(100, 100); (100, 100); (100, 100)],
     GazeSmoother.mk (1 # 2) (-1) (Some (100, 100))).
Proof.
  apply (negative_threshold_freezes
           (GazeSmoother.mk (1 # 2) (-1) (Some (100, 100))) (100, 100)
           [(100, 100); (101, 100); (500, 7)]).
  - reflexivity.
  - vm_compute. reflexivity.
Defined.

(** X4: feeding the smoother the point it holds returns an equal point,
    for every alpha and every threshold. *)
Theorem update_fixed_point (s : GazeSmoother.t) (l : point) :
  GazeSmoother.last s = Some l ->
  pt_eq (fst (GazeSmoother.update s l)) l.
Proof.
  intros Hl. unfold GazeSmoother.update. rewrite Hl.
  destruct (norm_gt _ _); unfold pt_eq; cbn [fst snd pt_add pt_scale];
    split; ring.
Qed.

Lemma update_fixed_point_witness :
  pt_eq (fst (GazeSmoother.update smoother_example (100, 100))) (100, 100).
Proof.
  apply (update_fixed_point smoother_example (100, 100)). reflexivity.
Defined.

(** ** Iris centre and mapping *)

(** X5: the iris centre is the mean of the eight iris landmarks (four
    per eye) scaled by the frame size; when those landmarks are
    normalised (coordinates in [0, 1]) the centre lies in the frame. *)
Theorem iris_center_in_frame (lm : landmarks) (w h : Q) :
  0 <= w -> 0 <= h ->
  (forall i, In i iris_ids ->
             (0 <= fst (lm i) /\ fst (lm i) <= 1)
             /\ (0 <= snd (lm i) /\ snd (lm i) <= 1)) ->
  let c := _compute_iris_center lm w h in
  fst c == (fst (lm 474%nat) + fst (lm 475%nat) + fst (lm 476%nat)
            + fst (lm 477%nat) + fst (lm 469%nat) + fst (lm 470%nat)
            + fst (lm 471%nat) + fst (lm 472%nat)) / 8 * w
  /\ snd c == (snd (lm 474%nat) + snd (lm 475%nat) + snd (lm 476%nat)
               + snd (lm 477%nat) + snd (lm 469%nat) + snd (lm 470%nat)
               + snd (lm 471%nat) + snd (lm 472%nat)) / 8 * h
  /\ (0 <= fst c /\ fst c <= w)
  /\ (0 <= snd c /\ snd c <= h).
Proof.
  intros Hw Hh Hn c.
  assert (Ex : fst c
               == (fst (lm 474%nat) + fst (lm 475%nat) + fst (lm 476%nat)
                   + fst (lm 477%nat) + fst (lm 469%nat) + fst (lm 470%nat)
                   + fst (lm 471%nat) + fst (lm 472%nat)) / 8 * w).
  { unfold c, _compute_iris_center, center, py_sum, py_len. cbn. field. }
  assert (Ey : snd c
               == (snd (lm 474%nat) + snd (lm 475%nat) + snd (lm 476%nat)
                   + snd (lm 477%nat) + snd (lm 469%nat) + snd (lm 470%nat)
                   + snd (lm 471%nat) + snd (lm 472%nat)) / 8 * h).
  { unfold c, _compute_iris_center, center, py_sum, py_len. cbn. field. }
  split; [exact Ex | split; [exact Ey|]].
  assert (Hin : forall i, In i iris_ids ->
                 (0 <= fst (lm i) /\ fst (lm i) <= 1)
                 /\ (0 <= snd (lm i) /\ snd (lm i) <= 1)) by exact Hn.
  destruct (Hin 474%nat) as [[? ?] [? ?]]; [cbn; auto 10|].
  destruct (Hin 475%nat) as [[? ?] [? ?]]; [cbn; auto 10|].
  destruct (Hin 476%nat) as [[? ?] [? ?]]; [cbn; auto 10|].
  destruct (Hin 477%nat) as [[? ?] [? ?]]; [cbn; auto 10|].
  destruct (Hin 469%nat) as [[? ?] [? ?]]; [cbn; auto 10|].
  destruct (Hin 470%nat) as [[? ?] [? ?]]; [cbn; auto 10|].
  destruct (Hin 471%nat) as [[? ?] [? ?]]; [cbn; auto 10|].
  destruct (Hin 472%nat) as [[? ?] [? ?]]; [cbn; auto 10|].
  clear Hin Hn.
  rewrite Ex, Ey.
  set (sx := fst (lm 474%nat) + fst (lm 475%nat) + fst (lm 476%nat)
             + fst (lm 477%nat) + fst (lm 469%nat) + fst (lm 470%nat)
             + fst (lm 471%nat) + fst (lm 472%nat)).
  set (sy := snd (lm 474%nat) + snd (lm 475%nat) + snd (lm 476%nat)
             + snd (lm 477%nat) + snd (lm 469%nat) + snd (lm 470%nat)
             + snd (lm 471%nat) + snd (lm 472%nat)).
  assert (Esx : sx / 8 == sx * (1 # 8)) by field.
  assert (Esy : sy / 8 == sy * (1 # 8)) by field.
  assert (Hsx : 0 <= sx / 8 /\ sx / 8 <= 1)
    by (rewrite Esx; unfold sx; split; qlra).
  assert (Hsy : 0 <= sy / 8 /\ sy / 8 <= 1)
    by (rewrite Esy; unfold sy; split; qlra).
  clear Esx Esy.
  generalize dependent (sx / 8). generalize dependent (sy / 8).
  intros ay Hay ax Hax.
  repeat split; qnra.
Qed.

Lemma iris_center_in_frame_witness :
  let c := _compute_iris_center landmarks_60 640 480 in
  (0 <= fst c /\ fst c <= 640) /\ (0 <= snd c /\ snd c <= 480).
Proof.
  refine (proj2 (proj2 (iris_center_in_frame landmarks_60 640 480 _ _ _))).
  - vm_compute. discriminate.
  - vm_compute. discriminate.
  - intros i _. vm_compute. repeat split; discriminate.
Defined.

Lemma clip_inside (a : Q) : 0 <= a -> a <= 1 -> clip a 0 1 == a.
Proof.
  intros H0 H1. unfold clip.
  rewrite (Q.max_l a 0 H0). apply Q.min_l. exact H1.
Qed.

Lemma clip_below (a : Q) : a <= 0 -> clip a 0 1 == 0.
Proof.
  intros H. unfold clip. rewrite (Q.max_r a 0 H). apply Q.min_l. qlra.
Qed.

Lemma clip_above (a : Q) : 1 <= a -> clip a 0 1 == 1.
Proof.
  intros H. unfold clip.
  rewrite (Q.max_l a 0) by qlra. apply Q.min_r. exact H.
Qed.

(** Where a quotient by a positive number lies. *)
Lemma div_pos_cases (x d : Q) :
  0 < d ->
  (0 <= x -> 0 <= x / d) /\ (x <= d -> x / d <= 1)
  /\ (x <= 0 -> x / d <= 0) /\ (d <= x -> 1 <= x / d).
Proof.
  intros Hd.
  assert (Hi : 0 < / d) by (apply Qinv_lt_0_compat; exact Hd).
  assert (Hm : d * / d == 1) by (apply Qmult_inv_r; qlra).
  unfold Qdiv. generalize dependent (/ d). intros r Hr Hm.
  repeat split; intros H; qnra.
Qed.

(** X6: without a calibration matrix the mapping is the linear scaling
    of the frame onto the screen for a point inside the frame, and it
    saturates at the screen edge for a point outside: left of the frame
    maps to x = 0, right of it to x = screenWidth (the vertical axis
    alike). *)
Theorem fallback_scales_and_saturates (st : t) (gaze_xy : point) (fw fh : Q) :
  calibration_matrix st = None ->
  0 < fw -> 0 < fh ->
  let q := _map_to_screen st gaze_xy fw fh in
  (0 <= fst gaze_xy -> fst gaze_xy <= fw ->
   fst q == fst gaze_xy / fw * screen_w st)
  /\ (fst gaze_xy <= 0 -> fst q == 0)
  /\ (fw <= fst gaze_xy -> fst q == screen_w st)
  /\ (0 <= snd gaze_xy -> snd gaze_xy <= fh ->
      snd q == snd gaze_xy / fh * screen_h st)
  /\ (snd gaze_xy <= 0 -> snd q == 0)
  /\ (fh <= snd gaze_xy -> snd q == screen_h st).
Proof.
  intros Hm Hw Hh q. unfold q, _map_to_screen. rewrite Hm.
  cbn [fst snd].
  destruct (div_pos_cases (fst gaze_xy) fw Hw) as (X1 & X2 & X3 & X4).
  destruct (div_pos_cases (snd gaze_xy) fh Hh) as (Y1 & Y2 & Y3 & Y4).
  repeat split; intros.
  - rewrite clip_inside; [reflexivity | auto | auto].
  - rewrite clip_below; [ring | auto].
  - rewrite clip_above; [ring | auto].
  - rewrite clip_inside; [reflexivity | auto | auto].
  - rewrite clip_below; [ring | auto].
  - rewrite clip_above; [ring | auto].
Qed.

Lemma fallback_scales_and_saturates_witness :
  fst (_map_to_screen (init config_example) (320, 600) 640 480) == 500
  /\ snd (_map_to_screen (init config_example) (320, 600) 640 480) == 800.
Proof.
  pose proof (fallback_scales_and_saturates (init config_example) (320, 600)
                640 480 eq_refl) as H.
  destruct H as (Hx & _ & _ & _ & _ & Hy).
  - vm_compute. reflexivity.
  - vm_compute. reflexivity.
  - split.
    + rewrite Hx; [vm_compute; reflexivity | | ]; vm_compute; discriminate.
    + rewrite Hy; [vm_compute; reflexivity | vm_compute; discriminate].
Defined.

(** ** Zone classification *)

(** X7: [_zone_for_point] returns None or one of the three scroll zone
    names; the top band wins over the bottom band, which wins over the
    right band, and None is returned exactly for the points strictly
    inside all three bands. *)
Theorem zone_for_point_bands (st : t) (x y : Q) :
  let z := _zone_for_point st x y in
  let top := top_px (config st) in
  let bottom := screen_h st - bottom_px (config st) in
  let right := screen_w st - right_px (config st) in
  (z = None \/ exists n, z = Some n /\ In n scroll_zones)
  /\ (z = Some "scroll_up"%string <-> y <= top)
  /\ (z = Some "scroll_down"%string <-> top < y /\ bottom <= y)
  /\ (z = Some "scroll_right"%string <-> top < y /\ y < bottom /\ right <= x)
  /\ (z = None <-> top < y /\ y < bottom /\ x < right).
Proof.
  intros z top bottom right. unfold z, _zone_for_point.
  fold top bottom right.
  destruct (Qle_bool y top) eqn:E1.
  - apply Qle_bool_iff in E1.
    split; [right; eexists; split; [reflexivity | now left]|].
    repeat split; intros; try discriminate; try assumption;
      try (exfalso; qlra).
  - assert (H1 : top < y).
    { apply Qnot_le_lt. intros H. apply Qle_bool_iff in H. congruence. }
    destruct (Qgeb y bottom) eqn:E2.
    + apply Qgeb_true in E2.
      split; [right; eexists; split; [reflexivity | right; now left]|].
      repeat split; intros; try discriminate; try assumption;
        try (exfalso; qlra).
    + apply Qgeb_false in E2.
      destruct (Qgeb x right) eqn:E3.
      * apply Qgeb_true in E3.
        split; [right; eexists; split;
                [reflexivity | right; right; now left]|].
        repeat split; intros; try discriminate; try assumption;
          try (exfalso; qlra).
      * apply Qgeb_false in E3.
        split; [now left|].
        repeat split; intros; try discriminate; try assumption;
          try (exfalso; qlra).
Qed.

(** ** More on the dwell machines *)

(** X8: once the scroll machine has fired on a sustained zone, the
    threshold plays no further part: every later observation of that
    zone at least the cooldown after the fire fires again. *)
Theorem refire_needs_only_cooldown (st : t) (z : string) (t1 now : Q) :
  In z scroll_zones ->
  active_zone (dwell st) = Some z ->
  snd (_process_dwell st (Some z) t1) <> [] ->
  t1 <= now ->
  dwell_cooldown st <= now - t1 ->
  _process_dwell (fst (_process_dwell st (Some z) t1)) (Some z) now
  = (set_dwell st (mkDwell (Some z) (start_ts (dwell st)) now),
     scroll_action (scroll st) (Some z)).
Proof.
  intros Hz Ha Hf Hle Hc.
  destruct (process_dwell_same_cases st z t1 Hz Ha)
    as [[He _] | (_ & Hs & _ & Ht)]; [congruence|].
  rewrite Hs.
  rewrite (process_dwell_same _ z now) by reflexivity.
  cbn [dwell set_dwell last_fire_ts start_ts].
  change (dwell_cooldown (set_dwell st _)) with (dwell_cooldown st).
  change (dwell_threshold (set_dwell st _)) with (dwell_threshold st).
  assert (E1 : Qltb (now - t1) (dwell_cooldown st) = false)
    by (apply Qltb_false; exact Hc).
  assert (E2 : Qgeb (now - start_ts (dwell st)) (dwell_threshold st) = true)
    by (apply Qgeb_true; qlra).
  rewrite E1, E2. reflexivity.
Qed.

Lemma refire_needs_only_cooldown_witness :
  _process_dwell
    (fst (_process_dwell dwelling_example (Some "scroll_down"%string)
                         (21 # 2)))
    (Some "scroll_down"%string) (23 # 2)
  = (set_dwell dwelling_example
               (mkDwell (Some "scroll_down"%string) 10 (23 # 2)),
     scroll_action (scroll dwelling_example) (Some "scroll_down"%string)).
Proof.
  apply (refire_needs_only_cooldown dwelling_example "scroll_down"
           (21 # 2) (23 # 2)).
  - right. left. reflexivity.
  - reflexivity.
  - vm_compute. discriminate.
  - vm_compute. discriminate.
  - vm_compute. discriminate.
Defined.

(** X9: the cooldown clock is shared by all zones and survives a change
    of zone: after the gaze enters a new zone at [t2], that zone fires
    at [now] exactly when the threshold has elapsed since [t2] and the
    cooldown has elapsed since the last fire of whatever zone fired
    before. *)
Theorem cooldown_survives_zone_change (st : t) (z : string) (t2 now : Q) :
  In z scroll_zones ->
  Some z <> active_zone (dwell st) ->
  (snd (_process_dwell (fst (_process_dwell st (Some z) t2)) (Some z) now)
   <> []
   <-> dwell_cooldown st <= now - last_fire_ts (dwell st)
       /\ dwell_threshold st <= now - t2).
Proof.
  intros Hz Hne.
  rewrite (process_dwell_change st (Some z) t2 Hne). cbn [fst].
  set (st1 := set_dwell st (mkDwell (Some z) t2 (last_fire_ts (dwell st)))).
  destruct (process_dwell_same_cases st1 z now Hz eq_refl)
    as [[He _] | (He & _ & Hc & Ht)].
  - split; [intros H; contradiction|].
    intros [Hc Ht]. exfalso.
    rewrite (process_dwell_same st1 z now eq_refl) in He.
    change (dwell_cooldown st1) with (dwell_cooldown st) in He.
    change (dwell_threshold st1) with (dwell_threshold st) in He.
    cbn [st1 dwell set_dwell last_fire_ts start_ts] in He.
    assert (E1 : Qltb (now - last_fire_ts (dwell st)) (dwell_cooldown st)
                 = false) by (apply Qltb_false; exact Hc).
    assert (E2 : Qgeb (now - t2) (dwell_threshold st) = true)
      by (apply Qgeb_true; exact Ht).
    rewrite E1, E2 in He. cbn [snd] in He.
    exact (scroll_action_nonempty _ z Hz He).
  - split; [intros _ | intros _; exact He].
    split; [exact Hc | exact Ht].
Qed.

Lemma cooldown_survives_zone_change_witness :
  snd (_process_dwell
         (fst (_process_dwell
                 (set_dwell dwelling_example
                    (mkDwell (Some "scroll_down"%string) 10 (21 # 2)))
                 (Some "scroll_up"%string) 11))
         (Some "scroll_up"%string) (23 # 2))
  <> [].
Proof.
  apply (cooldown_survives_zone_change
           (set_dwell dwelling_example
              (mkDwell (Some "scroll_down"%string) 10 (21 # 2)))
           "scroll_up" 11 (23 # 2)).
  - left. reflexivity.
  - discriminate.
  - split; vm_compute; discriminate.
Defined.

(** X10: the two dwell machines never touch each other: a step of the
    scroll machine changes at most the [dwell] field of the controller,
    a step of the menu machine at most [menu_dwell], and the menu
    machine never writes its [last_fire_ts]. *)
Theorem dwell_machines_are_independent (st : t) (target : name) (now : Q) :
  (exists d, fst (_process_dwell st target now) = set_dwell st d)
  /\ (exists d, snd (_process_menu_dwell st target now) = set_menu_dwell st d
                /\ last_fire_ts d = last_fire_ts (menu_dwell st)).
Proof.
  assert (S1 : set_dwell st (dwell st) = st) by (destruct st; reflexivity).
  assert (S2 : set_menu_dwell st (menu_dwell st) = st)
    by (destruct st; reflexivity).
  split.
  - unfold _process_dwell.
    destruct (negb _); [eexists; reflexivity|].
    destruct target; [|exists (dwell st); now rewrite S1].
    destruct (Qltb _ _); [exists (dwell st); now rewrite S1|].
    destruct (Qgeb _ _); [eexists; reflexivity|].
    exists (dwell st); now rewrite S1.
  - unfold _process_menu_dwell.
    destruct (negb _); [eexists; split; reflexivity|].
    destruct target; [|exists (menu_dwell st); now rewrite S2].
    destruct (Qgeb _ _); [eexists; split; reflexivity|].
    exists (menu_dwell st); now rewrite S2.
Qed.

(** ** One iteration of the run loop, by cases *)

Section TickFacts.
Context {L : Libs}.

(** What [run_calibration_on] can do to the controller. *)
Lemma run_calibration_on_cases (pts : list (Q * Q)) (st : t) (cap : capture) :
  (exists cap', run_calibration_on pts st cap = (ReturnsNone, st, cap', []))
  \/ (exists cap' m,
         run_calibration_on pts st cap
         = (ReturnsNone, set_calibration_matrix st m, cap', [WriteConfig m])).
Proof.
  unfold run_calibration_on.
  destruct (sweep st pts [] [] cap) as [A B | A B c].
  - left. eexists. reflexivity.
  - destruct (3 <=? _)%nat.
    + right. do 2 eexists. reflexivity.
    + left. eexists. reflexivity.
Qed.

(** What a fired menu action does, by its name. *)
Lemma dispatch_cases (st : t) (a : name) (cap : capture) :
  (a = Some "pause"%string
   /\ dispatch st a cap = (false, set_enabled st false, cap, []))
  \/ (a = Some "resume"%string
      /\ dispatch st a cap = (false, set_enabled st true, cap, []))
  \/ (a = Some "recalibrate"%string
      /\ ((exists cap', dispatch st a cap = (false, st, cap', []))
          \/ (exists cap' m,
                 dispatch st a cap
                 = (false, set_calibration_matrix st m, cap',
                    [WriteConfig m]))))
  \/ (a = Some "exit"%string /\ dispatch st a cap = (true, st, cap, []))
  \/ ((forall n, In n menu_actions -> a <> Some n)
      /\ dispatch st a cap = (false, st, cap, [])).
Proof.
  unfold dispatch.
  destruct (name_eqb a (Some "pause"%string)) eqn:E1.
  { left. apply name_eqb_eq in E1. now split. }
  destruct (name_eqb a (Some "resume"%string)) eqn:E2.
  { right; left. apply name_eqb_eq in E2. now split. }
  destruct (name_eqb a (Some "recalibrate"%string)) eqn:E3.
  { right; right; left. apply name_eqb_eq in E3. split; [exact E3|].
    unfold run_calibration.
    destruct (run_calibration_on_cases calibration_points st cap)
      as [(c & H) | (c & m & H)]; rewrite H.
    - left. eexists. reflexivity.
    - right. do 2 eexists. reflexivity. }
  destruct (name_eqb a (Some "exit"%string)) eqn:E4.
  { right; right; right; left. apply name_eqb_eq in E4. now split. }
  right; right; right; right. split; [|reflexivity].
  apply name_eqb_neq in E1, E2, E3, E4.
  intros n [<- | [<- | [<- | [<- | []]]]]; assumption.
Qed.

(** An iteration on a frame with a face that does not fire the menu
    machine. *)
Lemma loop_body_quiet (st : t) (ov : CircularMenuOverlay.t) (f : frame)
    (cap : capture) (lm : landmarks) :
  f_face f = Some lm ->
  fst (tick_menu st ov f lm) = false ->
  loop_body st ov (f :: cap)
  = let p := fst (gaze_point st f lm) in
    let s := scroll_phase (snd (tick_menu st ov f lm)) p (f_time2 f) in
    mkTick (preview_break (fst s) f) (fst s)
           (CircularMenuOverlay.set_hover_action
              (tick_overlay1 st ov f lm) (tick_action st ov f lm))
           cap (snd s) (Some p) (tick_action st ov f lm) false.
Proof.
  intros Hf Hm. rewrite (loop_body_face st ov f cap lm Hf).
  unfold tick_menu, tick_action, tick_overlay1 in *. cbv zeta in *.
  rewrite Hm. reflexivity.
Qed.

(** An iteration on a frame with a face that fires the menu machine. *)
Lemma loop_body_fired (st : t) (ov : CircularMenuOverlay.t) (f : frame)
    (cap : capture) (lm : landmarks) :
  f_face f = Some lm ->
  fst (tick_menu st ov f lm) = true ->
  loop_body st ov (f :: cap)
  = let p := fst (gaze_point st f lm) in
    let a := tick_action st ov f lm in
    let ov2 :=
      CircularMenuOverlay.set_hover_action (tick_overlay1 st ov f lm) a in
    let d := dispatch (snd (tick_menu st ov f lm)) a cap in
    let st3 := snd (fst (fst d)) in
    if fst (fst (fst d))
    then mkTick true st3 ov2 (snd (fst d)) (snd d) (Some p) a true
    else
      let s := scroll_phase st3 p (f_time2 f) in
      mkTick (preview_break (fst s) f) (fst s) ov2 (snd (fst d))
             (snd d ++ snd s) (Some p) a true.
Proof.
  intros Hf Hm. rewrite (loop_body_face st ov f cap lm Hf).
  unfold tick_menu, tick_action, tick_overlay1 in *. cbv zeta in *.
  rewrite Hm. reflexivity.
Qed.

(** An iteration on a frame without a face, or on a failed read. *)
Lemma loop_body_no_face (st : t) (ov : CircularMenuOverlay.t)
    (cap : capture) :
  (forall f rest lm, cap = f :: rest -> f_face f <> Some lm) ->
  k_state (loop_body st ov cap) = st
  /\ k_overlay (loop_body st ov cap) = ov
  /\ k_events (loop_body st ov cap) = []
  /\ k_action (loop_body st ov cap) = None
  /\ k_fired (loop_body st ov cap) = false.
Proof.
  intros H. destruct cap as [|f rest]; [now repeat split|].
  unfold loop_body. destruct (f_face f) as [lm|] eqn:E.
  - exfalso. exact (H f rest lm eq_refl E).
  - now repeat split.
Qed.

End TickFacts.

(** ** What a tick can and cannot do *)

Lemma process_menu_dwell_frame (st : t) (a : name) (now : Q) :
  exists d, snd (_process_menu_dwell st a now) = set_menu_dwell st d.
Proof.
  assert (S2 : set_menu_dwell st (menu_dwell st) = st)
    by (destruct st; reflexivity).
  unfold _process_menu_dwell.
  destruct (negb _); [eexists; reflexivity|].
  destruct a; [|exists (menu_dwell st); now rewrite S2].
  destruct (Qgeb _ _); [eexists; reflexivity|].
  exists (menu_dwell st); now rewrite S2.
Qed.

Lemma scroll_action_input_only (s : ScrollController.t) (z : name) :
  Forall (fun e => is_input_event e = true) (scroll_action s z)
  /\ shift_held (scroll_action s z) = 0%Z.
Proof.
  unfold scroll_action.
  destruct (name_eqb z (Some "scroll_up"%string));
    [split; [repeat constructor | reflexivity]|].
  destruct (name_eqb z (Some "scroll_down"%string));
    [split; [repeat constructor | reflexivity]|].
  destruct (name_eqb z (Some "scroll_right"%string));
    [split; [repeat constructor | reflexivity]|].
  split; [constructor | reflexivity].
Qed.

(** The scroll phase: it changes at most the scroll-dwell state, does
    nothing at all while the controller is disabled, and makes only
    balanced input calls. *)
Lemma scroll_phase_cases (st : t) (p : point) (now : Q) :
  (exists d, fst (scroll_phase st p now) = set_dwell st d)
  /\ (enabled st = false -> scroll_phase st p now = (st, []))
  /\ Forall (fun e => is_input_event e = true) (snd (scroll_phase st p now))
  /\ shift_held (snd (scroll_phase st p now)) = 0%Z.
Proof.
  assert (S1 : set_dwell st (dwell st) = st) by (destruct st; reflexivity).
  unfold scroll_phase. destruct (enabled st).
  - unfold _process_dwell.
    destruct (negb _);
      [split; [eexists; reflexivity
              | split; [discriminate | split; [constructor | reflexivity]]]|].
    destruct (_zone_for_point st (fst p) (snd p)) as [z|];
      [|split; [exists (dwell st); now rewrite S1
               | split; [discriminate | split; [constructor | reflexivity]]]].
    destruct (Qltb _ _);
      [split; [exists (dwell st); now rewrite S1
              | split; [discriminate | split; [constructor | reflexivity]]]|].
    destruct (Qgeb _ _).
    + split; [eexists; reflexivity | split; [discriminate|]].
      apply scroll_action_input_only.
    + split; [exists (dwell st); now rewrite S1
             | split; [discriminate | split; [constructor | reflexivity]]].
  - split; [exists (dwell st); now rewrite S1|].
    split; [reflexivity | split; [constructor | reflexivity]].
Qed.

Section TickProperties.
Context {L : Libs}.

(** The controller the menu machine leaves on a tick with a face
    differs from the one the tick began with in the smoother and the
    menu-dwell state at most. *)
Lemma tick_menu_frame (st : t) (ov : CircularMenuOverlay.t) (f : frame)
    (lm : landmarks) :
  let st2 := snd (tick_menu st ov f lm) in
  enabled st2 = enabled st
  /\ dwell st2 = dwell st
  /\ calibration_matrix st2 = calibration_matrix st
  /\ scroll st2 = scroll st
  /\ config st2 = config st.
Proof.
  unfold tick_menu.
  destruct (process_menu_dwell_frame
              (set_smoother st (snd (gaze_point st f lm)))
              (tick_action st ov f lm) (f_time1 f)) as [d ->].
  now repeat split.
Qed.

(** X11: while the controller is paused a tick is inert for scrolling:
    unless the tick fires the menu action "resume", the controller stays
    disabled, its scroll-dwell state is untouched and no mouse or
    keyboard call is made. *)
Theorem paused_tick_is_inert (st : t) (ov : CircularMenuOverlay.t)
    (cap : capture) :
  enabled st = false ->
  let k := loop_body st ov cap in
  (k_fired k = true /\ k_action k = Some "resume"%string
   /\ enabled (k_state k) = true)
  \/ (enabled (k_state k) = false
      /\ dwell (k_state k) = dwell st
      /\ Forall (fun e => is_input_event e = false) (k_events k)).
Proof.
  intros Hen k. unfold k. clear k.
  destruct cap as [|f cap]; [right; now repeat split|].
  destruct (f_face f) as [lm|] eqn:Hf;
    [|right; unfold loop_body; rewrite Hf; now repeat split].
  destruct (tick_menu_frame st ov f lm) as (Fe & Fd & _).
  rewrite Hen in Fe.
  destruct (fst (tick_menu st ov f lm)) eqn:Hm.
  - rewrite (loop_body_fired st ov f cap lm Hf Hm). cbv zeta.
    set (st2 := snd (tick_menu st ov f lm)) in *.
    set (p := fst (gaze_point st f lm)).
    destruct (dispatch_cases st2 (tick_action st ov f lm) cap)
      as [[Ha Hd] | [[Ha Hd] | [[Ha Hd] | [[Ha Hd] | [Ha Hd]]]]].
    + rewrite Hd. cbn [fst snd]. right.
      destruct (scroll_phase_cases (set_enabled st2 false) p (f_time2 f))
        as (_ & Hoff & _).
      rewrite (Hoff eq_refl). cbn.
      split; [reflexivity | split; [exact Fd | constructor]].
    + rewrite Hd. cbn [fst snd]. left.
      split; [reflexivity | split; [exact Ha|]].
      destruct (scroll_phase_cases (set_enabled st2 true) p (f_time2 f))
        as ([d ->] & _). reflexivity.
    + right. destruct Hd as [(c & Hd) | (c & m & Hd)]; rewrite Hd;
        cbn [fst snd].
      * destruct (scroll_phase_cases st2 p (f_time2 f)) as (_ & Hoff & _).
        rewrite (Hoff Fe). cbn.
        split; [exact Fe | split; [exact Fd | constructor]].
      * destruct (scroll_phase_cases (set_calibration_matrix st2 m) p
                    (f_time2 f)) as (_ & Hoff & _).
        rewrite (Hoff Fe). cbn.
        split; [exact Fe | split; [exact Fd | repeat constructor]].
    + rewrite Hd. cbn. right.
      split; [exact Fe | split; [exact Fd | constructor]].
    + rewrite Hd. cbn [fst snd]. right.
      destruct (scroll_phase_cases st2 p (f_time2 f)) as (_ & Hoff & _).
      rewrite (Hoff Fe). cbn.
      split; [exact Fe | split; [exact Fd | constructor]].
  - rewrite (loop_body_quiet st ov f cap lm Hf Hm). cbv zeta. right.
    destruct (scroll_phase_cases (snd (tick_menu st ov f lm))
                (fst (gaze_point st f lm)) (f_time2 f)) as (_ & Hoff & _).
    rewrite (Hoff Fe). cbn.
    split; [exact Fe | split; [exact Fd | constructor]].
Qed.

(** X12: within the loop, config.json is written only by a tick that
    fired the menu action "recalibrate", and the matrix written is the
    one the controller uses from then on. *)
Theorem config_written_only_on_recalibrate (st : t)
    (ov : CircularMenuOverlay.t) (cap : capture) (m : mat23) :
  let k := loop_body st ov cap in
  In (WriteConfig m) (k_events k) ->
  k_fired k = true
  /\ k_action k = Some "recalibrate"%string
  /\ calibration_matrix (k_state k) = Some m.
Proof.
  intros k. unfold k. clear k.
  destruct cap as [|f cap]; [intros []|].
  destruct (f_face f) as [lm|] eqn:Hf;
    [|unfold loop_body; rewrite Hf; intros []].
  assert (Hscroll : forall s p now,
             ~ In (WriteConfig m) (snd (scroll_phase s p now))).
  { intros s p now Hin.
    destruct (scroll_phase_cases s p now) as (_ & _ & Hall & _).
    rewrite Forall_forall in Hall. specialize (Hall _ Hin). discriminate. }
  assert (Hcal : forall s p now,
             calibration_matrix (fst (scroll_phase s p now))
             = calibration_matrix s).
  { intros s p now.
    destruct (scroll_phase_cases s p now) as ([d ->] & _). reflexivity. }
  destruct (fst (tick_menu st ov f lm)) eqn:Hm.
  - rewrite (loop_body_fired st ov f cap lm Hf Hm). cbv zeta.
    set (st2 := snd (tick_menu st ov f lm)).
    set (p := fst (gaze_point st f lm)).
    destruct (dispatch_cases st2 (tick_action st ov f lm) cap)
      as [[Ha Hd] | [[Ha Hd] | [[Ha Hd] | [[Ha Hd] | [Ha Hd]]]]].
    + rewrite Hd. cbn [fst snd k_events app]. intros Hin.
      now apply Hscroll in Hin.
    + rewrite Hd. cbn [fst snd k_events app]. intros Hin.
      now apply Hscroll in Hin.
    + destruct Hd as [(c & Hd) | (c & m' & Hd)]; rewrite Hd;
        cbn [fst snd k_events k_fired k_action k_state app].
      * intros Hin. now apply Hscroll in Hin.
      * intros [Hin | Hin]; [|now apply Hscroll in Hin].
        injection Hin as ->.
        split; [reflexivity | split; [exact Ha|]].
        rewrite Hcal. reflexivity.
    + rewrite Hd. cbn. intros [].
    + rewrite Hd. cbn [fst snd k_events app]. intros Hin.
      now apply Hscroll in Hin.
  - rewrite (loop_body_quiet st ov f cap lm Hf Hm). cbv zeta.
    cbn [k_events]. intros Hin. now apply Hscroll in Hin.
Qed.

(** X13: what a fired menu action does to the tick.  "exit" leaves the
    loop at once: no call is made and the scroll-dwell state is not
    touched.  "pause" disables the controller before the scroll phase,
    so the same tick makes no call and leaves the scroll-dwell state
    alone.  "resume" leaves the controller enabled. *)
Theorem menu_dispatch_effects (st : t) (ov : CircularMenuOverlay.t)
    (cap : capture) :
  let k := loop_body st ov cap in
  k_fired k = true ->
  (k_action k = Some "exit"%string ->
   k_break k = true /\ k_events k = [] /\ dwell (k_state k) = dwell st
   /\ enabled (k_state k) = enabled st)
  /\ (k_action k = Some "pause"%string ->
      enabled (k_state k) = false /\ k_events k = []
      /\ dwell (k_state k) = dwell st)
  /\ (k_action k = Some "resume"%string -> enabled (k_state k) = true).
Proof.
  intros k. unfold k. clear k.
  destruct cap as [|f cap]; [discriminate|].
  destruct (f_face f) as [lm|] eqn:Hf;
    [|unfold loop_body; rewrite Hf; discriminate].
  destruct (tick_menu_frame st ov f lm) as (Fe & Fd & _).
  destruct (fst (tick_menu st ov f lm)) eqn:Hm;
    [|rewrite (loop_body_quiet st ov f cap lm Hf Hm); discriminate].
  rewrite (loop_body_fired st ov f cap lm Hf Hm). cbv zeta.
  set (st2 := snd (tick_menu st ov f lm)) in *.
  set (p := fst (gaze_point st f lm)).
  intros _.
  destruct (dispatch_cases st2 (tick_action st ov f lm) cap)
    as [[Ha Hd] | [[Ha Hd] | [[Ha Hd] | [[Ha Hd] | [Ha Hd]]]]].
  - rewrite Hd. cbn [fst snd k_break k_events k_state k_action app].
    rewrite Ha.
    destruct (scroll_phase_cases (set_enabled st2 false) p (f_time2 f))
      as (_ & Hoff & _).
    rewrite (Hoff eq_refl). cbn [fst snd].
    split; [discriminate | split; [|discriminate]].
    intros _. split; [reflexivity | split; [reflexivity | exact Fd]].
  - rewrite Hd. cbn [fst snd k_break k_events k_state k_action app].
    rewrite Ha.
    split; [discriminate | split; [discriminate|]].
    intros _.
    destruct (scroll_phase_cases (set_enabled st2 true) p (f_time2 f))
      as ([d ->] & _). reflexivity.
  - destruct Hd as [(c & Hd) | (c & m & Hd)]; rewrite Hd;
      cbn [fst snd k_break k_events k_state k_action app];
      rewrite Ha; repeat split; discriminate.
  - rewrite Hd. cbn [fst snd k_break k_events k_state k_action].
    rewrite Ha.
    split; [|split; discriminate].
    intros _. split; [reflexivity | split; [reflexivity|]].
    split; [exact Fd | exact Fe].
  - rewrite Hd. cbn [fst snd k_break k_events k_state k_action app].
    split; [|split]; intros E; exfalso.
    + apply (Ha "exit"%string); [cbn; tauto | exact E].
    + apply (Ha "pause"%string); [cbn; tauto | exact E].
    + apply (Ha "resume"%string); [cbn; tauto | exact E].
Qed.

End TickProperties.

Lemma paused_tick_is_inert_witness :
  let st := set_enabled dwelling_example false in
  let k := @loop_body libs_example st (CircularMenuOverlay.init 1000 800)
                      [frame_example] in
  (k_fired k = true /\ k_action k = Some "resume"%string
   /\ enabled (k_state k) = true)
  \/ (enabled (k_state k) = false
      /\ dwell (k_state k) = dwell st
      /\ Forall (fun e => is_input_event e = false) (k_events k)).
Proof.
  apply (@paused_tick_is_inert libs_example
           (set_enabled dwelling_example false)
           (CircularMenuOverlay.init 1000 800) [frame_example]).
  reflexivity.
Defined.


Lemma config_written_only_on_recalibrate_witness :
  let k := @loop_body libs_example (menu_armed "recalibrate") overlay_open
                      (frame_on_recalibrate :: calibration_stream) in
  k_fired k = true
  /\ k_action k = Some "recalibrate"%string
  /\ calibration_matrix (k_state k) = Some ((25 # 16, 0, 0), (0, 5 # 3, 0)).
Proof.
  apply (@config_written_only_on_recalibrate libs_example
           (menu_armed "recalibrate") overlay_open
           (frame_on_recalibrate :: calibration_stream)
           ((25 # 16, 0, 0), (0, 5 # 3, 0))).
  vm_compute. left. reflexivity.
Defined.

Lemma menu_dispatch_effects_witness :
  let k := @loop_body libs_example (menu_armed "exit") overlay_open
                      [frame_on_exit; frame_example] in
  k_break k = true /\ k_events k = []
  /\ dwell (k_state k) = dwell (menu_armed "exit")
  /\ enabled (k_state k) = enabled (menu_armed "exit").
Proof.
  apply (@menu_dispatch_effects libs_example (menu_armed "exit") overlay_open
           [frame_on_exit; frame_example]).
  - vm_compute. reflexivity.
  - vm_compute. reflexivity.
Defined.

(** ** Whole runs *)

Section RunProperties.
Context {L : Libs}.






End RunProperties.

(** ** The overlay's hit test *)

Section HitTestFacts.
Context {L : Libs}.

(** The loop of [action_at] started at index [i0] returns the first
    item, in list order, that the point hits. *)
Lemma action_scan_first (cx cy rr step sx sy : Q) (acts : list string) :
  forall (i0 : nat) (a : string),
    CircularMenuOverlay.action_scan cx cy rr step sx sy i0 acts = Some a
    <-> exists i,
          nth_error acts i = Some a
          /\ item_hit cx cy rr step sx sy (i0 + i) = true
          /\ forall j, (j < i)%nat ->
                       item_hit cx cy rr step sx sy (i0 + j) = false.
Proof.
  induction acts as [|b acts IH]; intros i0 a.
  - cbn. split; [discriminate|]. intros (i & H & _).
    destruct i; discriminate.
  - cbn [CircularMenuOverlay.action_scan].
    change (Qle_bool _ (20 * 20)) with (item_hit cx cy rr step sx sy i0).
    destruct (item_hit cx cy rr step sx sy i0) eqn:E.
    + split.
      * intros H. injection H as ->. exists 0%nat.
        rewrite Nat.add_0_r. repeat split; [exact E|]. intros j Hj. lia.
      * intros (i & Hn & Hh & Hlt). destruct i as [|i].
        -- cbn in Hn. exact Hn.
        -- specialize (Hlt 0%nat (Nat.lt_0_succ i)).
           rewrite Nat.add_0_r in Hlt. congruence.
    + rewrite (IH (S i0) a). split.
      * intros (i & Hn & Hh & Hlt). exists (S i).
        rewrite Nat.add_succ_r. repeat split; [exact Hn | exact Hh|].
        intros j Hj. destruct j as [|j].
        -- rewrite Nat.add_0_r. exact E.
        -- rewrite Nat.add_succ_r. apply Hlt. lia.
      * intros (i & Hn & Hh & Hlt). destruct i as [|i].
        -- rewrite Nat.add_0_r in Hh. congruence.
        -- exists i. rewrite Nat.add_succ_r in Hh.
           repeat split; [exact Hn | exact Hh|].
           intros j Hj. specialize (Hlt (S j)).
           rewrite Nat.add_succ_r in Hlt. apply Hlt. lia.
Qed.

Lemma action_scan_none (cx cy rr step sx sy : Q) (acts : list string) :
  forall i0 : nat,
    CircularMenuOverlay.action_scan cx cy rr step sx sy i0 acts = None
    <-> forall i, (i < List.length acts)%nat ->
                  item_hit cx cy rr step sx sy (i0 + i) = false.
Proof.
  induction acts as [|b acts IH]; intros i0.
  - cbn. split; [intros _ i Hi; lia | reflexivity].
  - cbn [CircularMenuOverlay.action_scan List.length].
    change (Qle_bool _ (20 * 20)) with (item_hit cx cy rr step sx sy i0).
    destruct (item_hit cx cy rr step sx sy i0) eqn:E.
    + split; [discriminate|]. intros H.
      specialize (H 0%nat (Nat.lt_0_succ _)).
      rewrite Nat.add_0_r in H. congruence.
    + rewrite (IH (S i0)). split.
      * intros H i Hi. destruct i as [|i].
        -- rewrite Nat.add_0_r. exact E.
        -- rewrite Nat.add_succ_r. apply H. lia.
      * intros H i Hi. specialize (H (S i)).
        rewrite Nat.add_succ_r in H. apply H. lia.
Qed.

(** [action_at] returns only names of the overlay's action list. *)
Lemma action_at_in_actions (o : CircularMenuOverlay.t) (sx sy : Q)
    (a : string) :
  CircularMenuOverlay.action_at o sx sy = Some a ->
  In a (CircularMenuOverlay.actions o).
Proof.
  unfold CircularMenuOverlay.action_at.
  destruct (negb _); [discriminate|].
  destruct (CircularMenuOverlay.screen_center o) as [cx cy].
  intros H. apply (action_scan_first _ _ _ _ _ _ _ 0%nat a) in H.
  destruct H as (i & Hn & _). exact (nth_error_In _ _ Hn).
Qed.

(** X15: on an expanded overlay [action_at] returns the first action, in
    the order of the action list, whose ring item lies within 20 px of
    the point, and None exactly when the point hits no item; in
    particular it returns only names of the action list. *)
Theorem action_at_first_hit (o : CircularMenuOverlay.t) (sx sy : Q) :
  CircularMenuOverlay.expanded o = true ->
  (forall a,
      CircularMenuOverlay.action_at o sx sy = Some a
      <-> exists i,
            nth_error (CircularMenuOverlay.actions o) i = Some a
            /\ in_item o i sx sy = true
            /\ forall j, (j < i)%nat -> in_item o j sx sy = false)
  /\ (CircularMenuOverlay.action_at o sx sy = None
      <-> forall i,
            (i < List.length (CircularMenuOverlay.actions o))%nat ->
            in_item o i sx sy = false)
  /\ (forall a, CircularMenuOverlay.action_at o sx sy = Some a ->
                In a (CircularMenuOverlay.actions o)).
Proof.
  intros He. unfold CircularMenuOverlay.action_at, in_item. rewrite He.
  cbn [negb]. destruct (CircularMenuOverlay.screen_center o) as [cx cy].
  split; [|split].
  - intros a. exact (action_scan_first _ _ _ _ _ _ _ 0%nat a).
  - exact (action_scan_none _ _ _ _ _ _ _ 0%nat).
  - intros a H. apply (action_scan_first _ _ _ _ _ _ _ 0%nat a) in H.
    destruct H as (i & Hn & _). exact (nth_error_In _ _ Hn).
Qed.

End HitTestFacts.

Lemma action_at_first_hit_witness :
  In "resume"%string (CircularMenuOverlay.actions overlay_open)
  /\ CircularMenuOverlay.action_at (L := libs_example) overlay_open 944 400
     = Some "resume"%string.
Proof.
  assert (H : CircularMenuOverlay.action_at (L := libs_example)
                overlay_open 944 400 = Some "resume"%string)
    by (vm_compute; reflexivity).
  split; [|exact H].
  exact (proj2 (proj2 (@action_at_first_hit libs_example overlay_open
                         944 400 eq_refl)) "resume"%string H).
Defined.

(** ** The overlay over a run *)

Section OverlayRun.
Context {L : Libs}.

(** The overlay and the action of an iteration on a frame with a face. *)
Lemma loop_body_overlay_action (st : t) (ov : CircularMenuOverlay.t)
    (f : frame) (cap : capture) (lm : landmarks) :
  f_face f = Some lm ->
  k_overlay (loop_body st ov (f :: cap))
  = CircularMenuOverlay.set_hover_action (tick_overlay1 st ov f lm)
                                         (tick_action st ov f lm)
  /\ k_action (loop_body st ov (f :: cap)) = tick_action st ov f lm.
Proof.
  intros Hf. destruct (fst (tick_menu st ov f lm)) eqn:Hm.
  - rewrite (loop_body_fired st ov f cap lm Hf Hm). cbv zeta.
    destruct (fst (fst (fst (dispatch _ _ _)))); now split.
  - rewrite (loop_body_quiet st ov f cap lm Hf Hm). now split.
Qed.

Lemma hover_action_set (o : CircularMenuOverlay.t) (a : name) :
  CircularMenuOverlay.hover_action (CircularMenuOverlay.set_hover_action o a)
  = a.
Proof.
  unfold CircularMenuOverlay.set_hover_action.
  destruct (name_eqb (CircularMenuOverlay.hover_action o) a) eqn:E;
    cbn [negb]; [|reflexivity].
  now apply name_eqb_eq.
Qed.

Lemma same_layout_set_hover (o : CircularMenuOverlay.t) (a : name) :
  same_layout o (CircularMenuOverlay.set_hover_action o a).
Proof.
  unfold CircularMenuOverlay.set_hover_action, same_layout.
  destruct (negb _); now repeat split.
Qed.

Lemma same_layout_tick_overlay1 (st : t) (ov : CircularMenuOverlay.t)
    (f : frame) (lm : landmarks) :
  same_layout ov (tick_overlay1 st ov f lm)
  /\ (CircularMenuOverlay.expanded ov = true ->
      CircularMenuOverlay.expanded (tick_overlay1 st ov f lm) = true).
Proof.
  unfold tick_overlay1, same_layout.
  destruct (CircularMenuOverlay.is_in_base_circle _ _ _); now repeat split.
Qed.

Lemma same_layout_trans (a b c : CircularMenuOverlay.t) :
  same_layout a b -> same_layout b c -> same_layout a c.
Proof.
  unfold same_layout. intros (A1 & A2 & A3 & A4 & A5 & A6)
                             (B1 & B2 & B3 & B4 & B5 & B6).
  repeat split; congruence.
Qed.

(** One iteration keeps the overlay's layout and never collapses it. *)
Lemma loop_body_overlay_kept (st : t) (ov : CircularMenuOverlay.t)
    (cap : capture) :
  same_layout ov (k_overlay (loop_body st ov cap))
  /\ (CircularMenuOverlay.expanded ov = true ->
      CircularMenuOverlay.expanded (k_overlay (loop_body st ov cap)) = true).
Proof.
  destruct cap as [|f cap]; [now repeat split|].
  destruct (f_face f) as [lm|] eqn:Hf.
  - destruct (loop_body_overlay_action st ov f cap lm Hf) as [-> _].
    destruct (same_layout_tick_overlay1 st ov f lm) as [H1 H2].
    split.
    + exact (same_layout_trans _ _ _ H1 (same_layout_set_hover _ _)).
    + intros He. rewrite expanded_set_hover. exact (H2 He).
  - unfold loop_body. rewrite Hf. now repeat split.
Qed.

(** X16: over a run the loop changes nothing of the overlay but its
    expanded flag and its hover action: radius, position, size and
    action list stay as they were, and an overlay that is expanded is
    never collapsed again. *)
Theorem overlay_layout_kept_and_never_collapsed (fuel : nat) :
  forall (st : t) (ov : CircularMenuOverlay.t) (cap : capture),
    Forall (fun k =>
              same_layout ov (k_overlay k)
              /\ (CircularMenuOverlay.expanded ov = true ->
                  CircularMenuOverlay.expanded (k_overlay k) = true))
           (run_loop fuel st ov cap).
Proof.
  induction fuel as [|n IH]; intros st ov cap; [constructor|].
  cbn [run_loop].
  destruct (loop_body_overlay_kept st ov cap) as [H1 H2].
  destruct (k_break (loop_body st ov cap)).
  - constructor; [now split | constructor].
  - constructor; [now split|].
    specialize (IH (k_state (loop_body st ov cap))
                   (k_overlay (loop_body st ov cap))
                   (k_capture (loop_body st ov cap))).
    rewrite Forall_forall in IH |- *. intros k Hk.
    destruct (IH k Hk) as [K1 K2]. split.
    + exact (same_layout_trans _ _ _ H1 K1).
    + intros He. exact (K2 (H2 He)).
Qed.

(** The action of one iteration is None or a name of the overlay's
    action list, and after an iteration with a gaze point the overlay's
    hover action is the action hit. *)
Lemma loop_body_action_named (st : t) (ov : CircularMenuOverlay.t)
    (cap : capture) :
  (k_action (loop_body st ov cap) = None
   \/ exists n, k_action (loop_body st ov cap) = Some n
                /\ In n (CircularMenuOverlay.actions ov))
  /\ (k_screen_xy (loop_body st ov cap) <> None ->
      CircularMenuOverlay.hover_action (k_overlay (loop_body st ov cap))
      = k_action (loop_body st ov cap)).
Proof.
  destruct cap as [|f cap]; [split; [now left | intros H; now elim H]|].
  destruct (f_face f) as [lm|] eqn:Hf.
  - destruct (loop_body_overlay_action st ov f cap lm Hf) as [-> ->].
    split; [|intros _; apply hover_action_set].
    unfold tick_action.
    destruct (CircularMenuOverlay.action_at _ _ _) as [n|] eqn:Ea;
      [|now left].
    right. exists n. split; [reflexivity|].
    apply action_at_in_actions in Ea.
    destruct (same_layout_tick_overlay1 st ov f lm) as [(_ & E & _) _].
    now rewrite <- E.
  - unfold loop_body. rewrite Hf.
    split; [now left | intros H; now elim H].
Qed.

(** X17: in a run every tick's action is None or one of "pause",
    "resume", "recalibrate" and "exit", the four names [run] dispatches
    on, and after every tick with a gaze point the overlay's hover
    action is the action that tick hit. *)
Theorem run_actions_are_menu_actions (st : t) (opened : bool) (sw sh : Z)
    (cap : capture) :
  Forall (fun k =>
            (k_action k = None
             \/ exists n, k_action k = Some n /\ In n menu_actions)
            /\ (k_screen_xy k <> None ->
                CircularMenuOverlay.hover_action (k_overlay k) = k_action k))
         (snd (run st opened sw sh cap)).
Proof.
  unfold run. destruct opened; cbn [negb]; [|constructor].
  destruct (if calibration_enabled (config st) && _ then _ else _)
    as [[st1 cap1] ev].
  cbn [snd].
  assert (Hinit : CircularMenuOverlay.actions (CircularMenuOverlay.init sw sh)
                  = menu_actions) by reflexivity.
  revert Hinit.
  generalize (CircularMenuOverlay.init sw sh) as ov.
  generalize (S (List.length cap1)) as fuel. revert st1 cap1.
  intros st1 cap1 fuel. revert st1 cap1.
  induction fuel as [|n IH]; intros st1 cap1 ov Hacts; [constructor|].
  cbn [run_loop].
  destruct (loop_body_action_named st1 ov cap1) as [H1 H2].
  rewrite Hacts in H1.
  assert (Hnext : CircularMenuOverlay.actions
                    (k_overlay (loop_body st1 ov cap1)) = menu_actions).
  { destruct (loop_body_overlay_kept st1 ov cap1) as [(_ & E & _) _].
    now rewrite E. }
  destruct (k_break (loop_body st1 ov cap1)).
  - constructor; [now split | constructor].
  - constructor; [now split|]. apply IH. exact Hnext.
Qed.

End OverlayRun.

(** ** Termination of the run loop *)

Section RunEnds.
Context {L : Libs}.

Lemma run_loop_length (fuel : nat) :
  forall (st : t) (ov : CircularMenuOverlay.t) (cap : capture),
    (List.length (run_loop fuel st ov cap) <= fuel)%nat.
Proof.
  induction fuel as [|n IH]; intros st ov cap; [cbn; lia|].
  cbn [run_loop]. destruct (k_break (loop_body st ov cap)); cbn.
  - lia.
  - specialize (IH (k_state (loop_body st ov cap))
                   (k_overlay (loop_body st ov cap))
                   (k_capture (loop_body st ov cap))). lia.
Qed.

(** X18: [run] on an opened camera always comes to its end: its loop
    makes at most one iteration more than the camera has frames, every
    iteration but the last stays in the loop, and the last one leaves it
    by [break] (a failed read, the "exit" action or the Escape key). *)
Theorem run_leaves_its_loop (st : t) (sw sh : Z) (cap : capture) :
  exists (l : list tick) (k : tick),
    snd (run st true sw sh cap) = l ++ [k]
    /\ k_break k = true
    /\ Forall (fun x => k_break x = false) l
    /\ (List.length (l ++ [k]) <= S (List.length cap))%nat
    /\ fst (fst (run st true sw sh cap)) = ReturnsNone.
Proof.
  unfold run. cbn [negb].
  assert (Hcap : (List.length
                    (snd (fst (if calibration_enabled (config st)
                                  && match calibration_matrix st with
                                     | None => true
                                     | Some _ => false
                                     end
                               then let '(_, st', cap', ev) :=
                                      run_calibration st cap in
                                    (st', cap', ev)
                               else (st, cap, []))))
                  <= List.length cap)%nat).
  { destruct (calibration_enabled (config st) && _); [|cbn; lia].
    pose proof (run_calibration_on_capture calibration_points st cap) as H.
    unfold run_calibration.
    destruct (run_calibration_on calibration_points st cap)
      as [[[o st'] cap'] ev]. exact H. }
  destruct (if calibration_enabled (config st) && _ then _ else _)
    as [[st1 cap1] ev].
  cbn [fst snd] in *.
  destruct (run_loop_leaves (S (List.length cap1)) st1
              (CircularMenuOverlay.init sw sh) cap1 (Nat.lt_succ_diag_r _))
    as (l & k & Hrun & Hk & Hl).
  exists l, k. rewrite Hrun.
  split; [reflexivity | split; [exact Hk | split; [exact Hl|]]].
  split; [|reflexivity].
  rewrite <- Hrun.
  pose proof (run_loop_length (S (List.length cap1)) st1
                (CircularMenuOverlay.init sw sh) cap1). lia.
Qed.

End RunEnds.

(** ** The calibration sweep *)

(** A captured row is the iris centre of a frame of the stream, within
    40 px of the dot in that frame on both axes, and its target is the
    dot's normalised position scaled to the screen. *)
Lemma capture_target_row (st : t) (nx ny : Q) (cap : capture) :
  forall (d : option Q) (s : vec3) (tg : Q * Q) (cap' : capture),
    capture_target st nx ny d cap = Some (s, tg, cap') ->
    tg = (nx * screen_w st, ny * screen_h st)
    /\ exists f lm,
         In f cap /\ f_face f = Some lm
         /\ s = augment (_compute_iris_center lm (frame_w f) (frame_h f))
         /\ Qabs (fst (fst s) - fst (dot_of nx ny f)) <= 40
         /\ Qabs (snd (fst s) - snd (dot_of nx ny f)) <= 40.
Proof.
  induction cap as [|f cap IH]; intros d s tg cap' H; [discriminate|].
  cbn [capture_target] in H.
  assert (Hrec : forall d',
             capture_target st nx ny d' cap = Some (s, tg, cap') ->
             tg = (nx * screen_w st, ny * screen_h st)
             /\ exists f0 lm,
                  In f0 (f :: cap) /\ f_face f0 = Some lm
                  /\ s = augment (_compute_iris_center lm (frame_w f0)
                                                       (frame_h f0))
                  /\ Qabs (fst (fst s) - fst (dot_of nx ny f0)) <= 40
                  /\ Qabs (snd (fst s) - snd (dot_of nx ny f0)) <= 40).
  { intros d' H'. destruct (IH d' s tg cap' H') as (E & f0 & lm & Hin & R).
    split; [exact E|]. exists f0, lm. split; [now right | exact R]. }
  destruct (f_face f) as [lm|] eqn:Hf; [|exact (Hrec _ H)].
  destruct (Qle_bool _ 40 && Qle_bool _ 40) eqn:Hnear; [|exact (Hrec _ H)].
  destruct d as [d|]; [|exact (Hrec _ H)].
  destruct (Qgeb _ _); [|exact (Hrec _ H)].
  injection H as <- <- _.
  split; [reflexivity|].
  exists f, lm. apply andb_true_iff in Hnear. destruct Hnear as [Hx Hy].
  apply Qle_bool_iff in Hx, Hy.
  split; [now left | split; [exact Hf | split; [reflexivity|]]].
  split; [exact Hx | exact Hy].
Qed.

(** The frames left after a capture are frames of the stream. *)
Lemma capture_target_rest_in (st : t) (nx ny : Q) (cap : capture) :
  forall (d : option Q) (s : vec3) (tg : Q * Q) (cap' : capture),
    capture_target st nx ny d cap = Some (s, tg, cap') ->
    forall x, In x cap' -> In x cap.
Proof.
  induction cap as [|g cap IH]; intros d s tg cap' E x Hx; [discriminate|].
  cbn [capture_target] in E.
  destruct (f_face g); [|right; exact (IH _ _ _ _ E x Hx)].
  destruct (Qle_bool _ 40 && Qle_bool _ 40);
    [|right; exact (IH _ _ _ _ E x Hx)].
  destruct d as [d|]; [|right; exact (IH _ _ _ _ E x Hx)].
  destruct (Qgeb _ _); [|right; exact (IH _ _ _ _ E x Hx)].
  injection E as _ _ <-. now right.
Qed.

(** X19: a calibration sweep that runs to its end pairs, in order, one
    sample with every target: the targets are the normalised positions
    scaled to the screen, whatever the camera showed, and every sample
    is the iris centre of some frame of the stream, taken within 40 px
    of the dot of that frame on both axes. *)
Theorem sweep_rows (st : t) (pts : list (Q * Q)) :
  forall (cap : capture) (A : list vec3) (B : list (Q * Q)) (cap' : capture)
         (A0 : list vec3) (B0 : list (Q * Q)),
    sweep st pts A0 B0 cap = Collected A B cap' ->
    B = B0 ++ map (fun p => (fst p * screen_w st, snd p * screen_h st)) pts
    /\ exists A1,
         A = A0 ++ A1
         /\ Forall2 (fun p s =>
                       exists f lm,
                         In f cap /\ f_face f = Some lm
                         /\ s = augment (_compute_iris_center lm (frame_w f)
                                                              (frame_h f))
                         /\ Qabs (fst (fst s) - fst (dot_of (fst p) (snd p) f))
                            <= 40
                         /\ Qabs (snd (fst s) - snd (dot_of (fst p) (snd p) f))
                            <= 40)
                    pts A1.
Proof.
  induction pts as [|[nx ny] pts IH]; intros cap A B cap' A0 B0 H.
  - cbn in H. injection H as <- <- _. rewrite !app_nil_r.
    split; [reflexivity|]. exists []. rewrite app_nil_r.
    split; [reflexivity | constructor].
  - cbn [sweep] in H.
    destruct (capture_target st nx ny None cap) as [[[s tg] c]|] eqn:E;
      [|discriminate].
    destruct (capture_target_row st nx ny cap None s tg c E)
      as (-> & f & lm & Hin & Hrow).
    destruct (IH c A B cap' _ _ H) as (HB & A1 & HA & Hall).
    split.
    + rewrite HB, <- app_assoc. reflexivity.
    + exists (s :: A1). split; [rewrite HA, <- app_assoc; reflexivity|].
      constructor.
      * exists f, lm. split; [exact Hin | exact Hrow].
      * pose proof (capture_target_rest_in st nx ny cap None s _ c E)
          as Hsub.
        eapply Forall2_impl; [|exact Hall].
        intros p s' (f' & lm' & Hin' & R). exists f', lm'.
        split; [apply Hsub; exact Hin' | exact R].
Qed.

Lemma sweep_rows_witness :
  snd (gathered (sweep (init config_example) calibration_points [] []
                       calibration_stream))
  = map (fun p => (fst p * 1000, snd p * 800)) calibration_points.
Proof.
  destruct (sweep (init config_example) calibration_points [] []
                  calibration_stream) as [A B | A B c] eqn:E.
  - vm_compute in E. discriminate E.
  - exact (proj1 (sweep_rows (init config_example) calibration_points
                    calibration_stream A B c [] [] E)).
Defined.

(** A capture from the stream without its faceless frames gives the
    same row and leaves the same frames, faceless ones removed. *)
Lemma capture_target_skips_faceless (st : t) (nx ny : Q) (cap : capture) :
  forall d : option Q,
    capture_target st nx ny d (filter has_face cap)
    = match capture_target st nx ny d cap with
      | Some (s, tg, c) => Some (s, tg, filter has_face c)
      | None => None
      end.
Proof.
  induction cap as [|f cap IH]; intros d; [reflexivity|].
  cbn [filter]. unfold has_face at 1.
  destruct (f_face f) as [lm|] eqn:Hf.
  - cbn [capture_target]. rewrite Hf.
    destruct (Qle_bool _ 40 && Qle_bool _ 40); [|apply IH].
    destruct d as [d|]; [|apply IH].
    destruct (Qgeb _ _); [reflexivity | apply IH].
  - cbn [capture_target]. rewrite Hf. apply IH.
Qed.

Section SweepFaceless.
Context {L : Libs}.

(** X20: frames without a face are invisible to calibration: they
    neither reset the dwell on a dot nor count towards it, so a sweep
    over a stream and over the same stream with its faceless frames
    removed gather the same rows, end the same way, and leave
    [run_calibration] with the same controller and the same writes. *)
Theorem faceless_frames_invisible_to_calibration (st : t)
    (pts : list (Q * Q)) (cap : capture) :
  (forall A0 B0,
      sweep st pts A0 B0 (filter has_face cap)
      = match sweep st pts A0 B0 cap with
        | Aborted A B => Aborted A B
        | Collected A B c => Collected A B (filter has_face c)
        end)
  /\ snd (fst (fst (run_calibration_on pts st (filter has_face cap))))
     = snd (fst (fst (run_calibration_on pts st cap)))
  /\ snd (run_calibration_on pts st (filter has_face cap))
     = snd (run_calibration_on pts st cap).
Proof.
  assert (Hs : forall A0 B0,
             sweep st pts A0 B0 (filter has_face cap)
             = match sweep st pts A0 B0 cap with
               | Aborted A B => Aborted A B
               | Collected A B c => Collected A B (filter has_face c)
               end).
  { revert cap. induction pts as [|[nx ny] pts IH]; intros cap A0 B0.
    - reflexivity.
    - cbn [sweep]. rewrite capture_target_skips_faceless.
      destruct (capture_target st nx ny None cap) as [[[s tg] c]|];
        [apply IH | reflexivity]. }
  split; [exact Hs|].
  unfold run_calibration_on. rewrite Hs.
  destruct (sweep st pts [] [] cap) as [A B | A B c]; [now split|].
  destruct (3 <=? _)%nat; now split.
Qed.

End SweepFaceless.

(** ** load_config *)

Lemma dict_get_set_same (key : string) (v : json) (d : list (string * json)) :
  dict_get key (dict_set key v d) = Some v.
Proof.
  induction d as [|[k w] d IH]; cbn.
  - now rewrite String.eqb_refl.
  - destruct (String.eqb k key) eqn:E; cbn; rewrite E; [reflexivity | exact IH].
Qed.

Lemma dict_get_set_other (key key' : string) (v : json)
    (d : list (string * json)) :
  key' <> key ->
  dict_get key' (dict_set key v d) = dict_get key' d.
Proof.
  intros Hne. induction d as [|[k w] d IH]; cbn.
  - destruct (String.eqb key key') eqn:E; [|reflexivity].
    apply String.eqb_eq in E. congruence.
  - destruct (String.eqb k key) eqn:E; cbn.
    + destruct (String.eqb k key') eqn:E'; [|reflexivity].
      apply String.eqb_eq in E, E'. congruence.
    + destruct (String.eqb k key'); [reflexivity | exact IH].
Qed.

(** X21: [load_config] keeps a configuration whose screen width and
    height are both present and truthy exactly as it is.  Otherwise
    (no "screen" member, or a width or height that is missing, null or
    zero) it sets both to the system metrics, overwriting also the one
    that was supplied, and changes no other member of the configuration
    or of its screen object.  A "screen" member that is not an object
    makes it raise. *)
Theorem load_config_screen_defaults (config : list (string * json))
    (m0 m1 : Z) :
  (forall screen,
      dict_get "screen" config = Some (JObj screen) ->
      get_truthy "width" screen = true ->
      get_truthy "height" screen = true ->
      load_config config m0 m1 = Returns config)
  /\
  (forall screen,
      (dict_get "screen" config = Some (JObj screen)
       \/ (dict_get "screen" config = None /\ screen = [])) ->
      get_truthy "width" screen = false
      \/ get_truthy "height" screen = false ->
      exists config',
        load_config config m0 m1 = Returns config'
        /\ screen_size config'
           = Some (JNum (inject_Z m0), JNum (inject_Z m1))
        /\ (forall k, k <> "screen"%string ->
                      dict_get k config' = dict_get k config)
        /\ (exists screen',
               dict_get "screen" config' = Some (JObj screen')
               /\ forall k, k <> "width"%string -> k <> "height"%string ->
                            dict_get k screen' = dict_get k screen))
  /\
  (forall v,
      dict_get "screen" config = Some v ->
      (forall screen, v <> JObj screen) ->
      load_config config m0 m1 = Raised "AttributeError").
Proof.
  split; [|split].
  - intros screen Hs Hw Hh. unfold load_config. rewrite Hs, Hs, Hw, Hh.
    reflexivity.
  - intros screen Hs Hbad.
    set (screen' := dict_set "height" (JNum (inject_Z m1))
                      (dict_set "width" (JNum (inject_Z m0)) screen)).
    assert (Hcond : negb (get_truthy "width" screen)
                    || negb (get_truthy "height" screen) = true).
    { destruct Hbad as [-> | ->]; [reflexivity | apply orb_true_r]. }
    assert (Hsize : forall c,
               screen_size (dict_set "screen" (JObj screen') c)
               = Some (JNum (inject_Z m0), JNum (inject_Z m1))).
    { intros c. unfold screen_size. rewrite dict_get_set_same.
      unfold screen'. rewrite dict_get_set_other by discriminate.
      now rewrite !dict_get_set_same. }
    assert (Hkeep : forall k, k <> "width"%string -> k <> "height"%string ->
                              dict_get k screen' = dict_get k screen).
    { intros k H1 H2. unfold screen'.
      now rewrite !dict_get_set_other by assumption. }
    destruct Hs as [Hs | [Hs ->]].
    + exists (dict_set "screen" (JObj screen') config).
      unfold load_config. rewrite Hs, Hs, Hcond.
      split; [reflexivity | split; [apply Hsize | split]].
      * intros k Hk. now apply dict_get_set_other.
      * exists screen'. split; [apply dict_get_set_same | exact Hkeep].
    + exists (dict_set "screen" (JObj screen')
                       (dict_set "screen" (JObj []) config)).
      unfold load_config. rewrite Hs, dict_get_set_same.
      cbn [get_truthy dict_get negb orb].
      split; [reflexivity | split; [apply Hsize | split]].
      * intros k Hk. now rewrite !dict_get_set_other by assumption.
      * exists screen'. split; [apply dict_get_set_same | exact Hkeep].
  - intros v Hs Hv. unfold load_config. rewrite Hs, Hs.
    destruct v; try reflexivity. exfalso. exact (Hv members eq_refl).
Qed.

(** A configuration with a width and no height on a 1920x1080 desktop:
    the supplied width 800 is replaced by 1920. *)
Lemma load_config_screen_defaults_witness :
  exists config',
    load_config [("camera_index", JNum 0);
                 ("screen", JObj [("width", JNum 800)])]%string 1920 1080
    = Returns config'
    /\ screen_size config' = Some (JNum 1920, JNum 1080)
    /\ dict_get "camera_index" config' = Some (JNum 0).
Proof.
  destruct (proj1 (proj2 (load_config_screen_defaults
                            [("camera_index", JNum 0);
                             ("screen", JObj [("width", JNum 800)])]%string
                            1920 1080))
                  [("width", JNum 800)]%string)
    as (config' & H1 & H2 & H3 & _).
  - left. reflexivity.
  - right. reflexivity.
  - exists config'. split; [exact H1 | split; [exact H2|]].
    rewrite H3 by discriminate. reflexivity.
Defined.

(** An expanded overlay fed a frame: it stays expanded and keeps its
    layout. *)
Lemma overlay_layout_kept_and_never_collapsed_witness :
  Forall (fun k =>
            same_layout overlay_open (k_overlay k)
            /\ (CircularMenuOverlay.expanded overlay_open = true ->
                CircularMenuOverlay.expanded (k_overlay k) = true))
         (@run_loop libs_example 2 (init config_example) overlay_open
                    [frame_example]).
Proof.
  exact (@overlay_layout_kept_and_never_collapsed libs_example 2
           (init config_example) overlay_open [frame_example]).
Defined.

(** ** Native messaging host *)

Import NativeHost.

Lemma to_N_byte_of (n : N) : Byte.to_N (byte_of n) = (n mod 256)%N.
Proof.
  unfold byte_of. destruct (Byte.of_N (n mod 256)) as [b|] eqn:E.
  - apply Byte.to_of_N; exact E.
  - apply Byte.of_N_None_iff in E.
    pose proof (N.mod_upper_bound n 256). lia.
Qed.

(** The header written for a length is read back as that length. *)
Lemma unpack_pack (n : N) (h : list Byte.byte) :
  pack_u32 n = Some h -> unpack_u32 h = Some n /\ List.length h = 4%nat.
Proof.
  unfold pack_u32. destruct (n <? 2 ^ 32)%N eqn:E; [|discriminate].
  intros H. injection H as <-. split; [|reflexivity].
  apply N.ltb_lt in E. cbn [unpack_u32]. rewrite !to_N_byte_of. f_equal.
  change (2 ^ 32)%N with 4294967296%N in E.
  replace (n / 65536)%N with (n / 256 / 256)%N
    by (rewrite N.Div0.div_div; reflexivity).
  replace (n / 16777216)%N with (n / 256 / 256 / 256)%N
    by (rewrite !N.Div0.div_div; reflexivity).
  pose proof (N.div_mod n 256) as H1.
  pose proof (N.div_mod (n / 256) 256) as H2.
  pose proof (N.div_mod (n / 256 / 256) 256) as H3.
  assert (Hs : (n / 256 / 256 / 256 < 256)%N).
  { rewrite !N.Div0.div_div. apply N.Div0.div_lt_upper_bound. lia. }
  rewrite (N.mod_small _ 256 Hs).
  generalize dependent (n mod 256)%N.
  generalize dependent (n / 256 mod 256)%N.
  generalize dependent (n / 256 / 256 mod 256)%N.
  intros. lia.
Qed.

Lemma read_app (data rest : list Byte.byte) :
  read (N.of_nat (List.length data)) (data ++ rest) = (data, rest).
Proof.
  unfold read. rewrite Nat2N.id.
  rewrite firstn_app, Nat.sub_diag, firstn_all, skipn_app, Nat.sub_diag,
    skipn_all. cbn. now rewrite !app_nil_r.
Qed.

Section Framing.
Context {J : JsonLib}.

(** X22: a message written by [_send_message] is read back by
    [_read_message]: when the JSON library reads back what it writes for
    the payload, the encoding is not empty and shorter than 2^32 bytes,
    the bytes written are a four-byte header and the encoding, and
    reading them returns the payload and leaves exactly the bytes that
    followed. *)
Theorem send_then_read_round_trip (payload : json) (rest : list Byte.byte) :
  loads (dumps payload) = Some payload ->
  dumps payload <> [] ->
  (N.of_nat (List.length (dumps payload)) < 2 ^ 32)%N ->
  exists header,
    _send_message payload = Returns (header ++ dumps payload)
    /\ List.length header = 4%nat
    /\ _read_message ((header ++ dumps payload) ++ rest)
       = (Returns payload, rest).
Proof.
  intros Hrt Hne Hlen. unfold _send_message.
  destruct (pack_u32 (N.of_nat (List.length (dumps payload))))
    as [header|] eqn:Hp.
  - destruct (unpack_pack _ _ Hp) as [Hu H4].
    exists header. split; [reflexivity | split; [exact H4|]].
    unfold _read_message.
    assert (Hr : read 4 ((header ++ dumps payload) ++ rest)
                 = (header, dumps payload ++ rest)).
    { rewrite <- app_assoc.
      change 4%N with (N.of_nat 4). rewrite <- H4. apply read_app. }
    rewrite Hr.
    destruct header as [|b header]; [discriminate H4|].
    rewrite Hu.
    destruct (N.of_nat (List.length (dumps payload)) =? 0)%N eqn:E0.
    + apply N.eqb_eq in E0.
      destruct (dumps payload); [now elim Hne | discriminate E0].
    + rewrite read_app.
      destruct (dumps payload) as [|c data] eqn:Ed; [now elim Hne|].
      now rewrite Hrt.
  - unfold pack_u32 in Hp. apply N.ltb_lt in Hlen. rewrite Hlen in Hp.
    discriminate.
Qed.

(** X23: the edges of [_read_message].  End of input and a zero length
    both give None, the zero length after consuming its four bytes; one
    to three bytes of header raise struct.error; a body cut short by the
    end of input is not detected as such but handed to the JSON parser
    as it is; and a call that returns a message has consumed at least
    five bytes. *)
Theorem read_message_edges (stdin : list Byte.byte) :
  (stdin = [] -> _read_message stdin = (Returns JNull, []))
  /\ ((0 < List.length stdin < 4)%nat ->
      _read_message stdin = (Raised "struct.error", []))
  /\ (forall rest,
         stdin = [Byte.x00; Byte.x00; Byte.x00; Byte.x00] ++ rest ->
         _read_message stdin = (Returns JNull, rest))
  /\ (forall n header body,
         stdin = header ++ body ->
         pack_u32 n = Some header ->
         (0 < List.length body)%nat ->
         (N.of_nat (List.length body) <= n)%N ->
         _read_message stdin
         = (match loads body with
            | Some v => Returns v
            | None => Raised "ValueError"
            end, []))
  /\ (forall v rest,
         _read_message stdin = (Returns v, rest) ->
         v <> JNull ->
         (List.length rest + 5 <= List.length stdin)%nat).
Proof.
  split; [|split; [|split; [|split]]].
  - intros ->. reflexivity.
  - intros [H0 H4].
    destruct stdin as [|a [|b [|c [|d s]]]]; cbn in H0, H4; try lia;
      reflexivity.
  - intros rest ->. reflexivity.
  - intros n header body -> Hp Hpos Hn.
    destruct (unpack_pack _ _ Hp) as [Hu H4]. unfold _read_message.
    assert (Hr : read 4 (header ++ body) = (header, body)).
    { change 4%N with (N.of_nat 4). rewrite <- H4. apply read_app. }
    rewrite Hr. destruct header as [|b0 header]; [discriminate H4|].
    rewrite Hu.
    assert (E0 : (n =? 0)%N = false) by (apply N.eqb_neq; lia).
    rewrite E0.
    assert (Hb : read n body = (body, [])).
    { unfold read. rewrite firstn_all2, skipn_all2 by lia. reflexivity. }
    rewrite Hb. destruct body as [|c body]; [cbn in Hpos; lia|].
    destruct (loads (c :: body)); reflexivity.
  - intros v rest H Hv.
    destruct stdin as [|a [|b [|c [|d s]]]];
      try (vm_compute in H; injection H as <- _; now elim Hv);
      try (vm_compute in H; discriminate H).
    unfold _read_message in H.
    change (read 4 (a :: b :: c :: d :: s)) with ([a; b; c; d], s) in H.
    cbn iota beta in H.
    destruct (unpack_u32 [a; b; c; d]) as [n|]; [|discriminate H].
    destruct (n =? 0)%N eqn:E0; [injection H as <- _; now elim Hv|].
    apply N.eqb_neq in E0. unfold read in H.
    pose proof (length_skipn (N.to_nat n) s) as Hk.
    destruct (firstn (N.to_nat n) s) as [|e data] eqn:Ef;
      [injection H as <- _; now elim Hv|].
    destruct (loads (e :: data)); [|discriminate H].
    injection H as _ <-. rewrite Hk.
    destruct s as [|x s]; [rewrite firstn_nil in Ef; discriminate Ef|].
    cbn [List.length]. lia.
Qed.

End Framing.

Lemma send_then_read_round_trip_witness :
  exists header,
    @_send_message json_example (JObj [])
    = Returns (header ++ bytes_empty_object)
    /\ List.length header = 4%nat
    /\ @_read_message json_example
         ((header ++ bytes_empty_object) ++ [Byte.x00])
       = (Returns (JObj []), [Byte.x00]).
Proof.
  apply (@send_then_read_round_trip json_example (JObj []) [Byte.x00]).
  - reflexivity.
  - discriminate.
  - vm_compute. reflexivity.
Defined.

Lemma read_message_edges_witness :
  @_read_message json_example [Byte.x01; Byte.x00]
  = (Raised "struct.error", []).
Proof.
  apply (proj1 (proj2 (@read_message_edges json_example
                         [Byte.x01; Byte.x00]))).
  cbn. lia.
Defined.

(** The polling loop: it stops at the first successful attempt, sleeps
    once per failed one, and spawns nothing. *)
Lemma poll_spec (n : nat) (port : Z) (probe : nat -> bool) :
  forall k : nat,
    let r := poll n port probe k in
    let ok := fst (fst r) in
    let ev := snd (fst r) in
    let k' := snd r in
    (ok = true ->
     exists i, (i < n)%nat /\ probe (k + i)%nat = true
               /\ (forall j, (j < i)%nat -> probe (k + j)%nat = false)
               /\ k' = (k + i + 1)%nat
               /\ count_events is_sleep ev = i)
    /\ (ok = false ->
        (forall j, (j < n)%nat -> probe (k + j)%nat = false)
        /\ k' = (k + n)%nat
        /\ count_events is_sleep ev = n)
    /\ count_events is_connect ev = (k' - k)%nat
    /\ count_events is_popen ev = 0%nat.
Proof.
  induction n as [|n IH]; intros k.
  - cbn [poll fst snd]. unfold count_events. cbn [filter List.length].
    split; [discriminate | split; [|split; [lia | reflexivity]]].
    intros _. split; [intros j Hj; lia | split; [lia | reflexivity]].
  - cbn [poll]. destruct (probe k) eqn:Ek.
    + cbn [fst snd]. unfold count_events.
      cbn [filter is_sleep is_connect is_popen List.length].
      split; [|split; [discriminate | split; [lia | reflexivity]]].
      intros _. exists 0%nat. rewrite Nat.add_0_r.
      repeat split; [lia | exact Ek | intros j Hj; lia | lia].
    + specialize (IH (S k)).
      destruct (poll n port probe (S k)) as [[ok ev] k'].
      cbn [fst snd] in *. destruct IH as (I1 & I2 & I3 & I4).
      unfold count_events in *. cbn [filter is_sleep is_connect is_popen
                                     List.length].
      split; [|split; [|split]].
      * intros Hok. destruct (I1 Hok) as (i & Hi & Hp & Hj & Hk & Hs).
        exists (S i). rewrite Nat.add_succ_r.
        repeat split; [lia | exact Hp | | lia | now rewrite Hs].
        intros j Hlt. destruct j as [|j]; [now rewrite Nat.add_0_r|].
        rewrite Nat.add_succ_r. apply Hj. lia.
      * intros Hok. destruct (I2 Hok) as (Hj & Hk & Hs).
        repeat split; [|lia | now rewrite Hs].
        intros j Hlt. destruct j as [|j]; [now rewrite Nat.add_0_r|].
        rewrite Nat.add_succ_r. apply Hj. lia.
      * rewrite I3.
        assert ((S k <= k')%nat).
        { destruct ok; [destruct (I1 eq_refl) as (i & _ & _ & _ & -> & _)
                       | destruct (I2 eq_refl) as (_ & -> & _)]; lia. }
        lia.
      * exact I4.
Qed.

(** X24: [_start_server] spawns no process when the first connection
    attempt succeeds and reports alreadyRunning; otherwise it spawns
    exactly one, polls at most 20 times, sleeping once after each failed
    poll, reports success at the first poll that succeeds and "Server
    did not start" exactly when all 20 fail.  It never makes more than
    21 connection attempts. *)
Theorem start_server_protocol (port : Z) (root_dir : string)
    (probe : nat -> bool) (k : nat) :
  let r := _start_server port root_dir probe k in
  let response := fst (fst r) in
  let ev := snd (fst r) in
  let k' := snd r in
  (probe k = true ->
   response = JObj [("ok", JBool true); ("alreadyRunning", JBool true)]%string
   /\ count_events is_popen ev = 0%nat
   /\ count_events is_sleep ev = 0%nat
   /\ k' = S k)
  /\ (probe k = false ->
      count_events is_popen ev = 1%nat
      /\ ((exists i, (i < 20)%nat /\ probe (S k + i)%nat = true
                     /\ (forall j, (j < i)%nat -> probe (S k + j)%nat = false)
                     /\ count_events is_sleep ev = i
                     /\ response
                        = JObj [("ok", JBool true);
                                ("alreadyRunning", JBool false)]%string)
          \/ ((forall j, (j < 20)%nat -> probe (S k + j)%nat = false)
              /\ count_events is_sleep ev = 20%nat
              /\ response
                 = JObj [("ok", JBool false);
                         ("error", JStr "Server did not start")]%string)))
  /\ count_events is_connect ev = (k' - k)%nat
  /\ (k' <= k + 21)%nat.
Proof.
  unfold _start_server. destruct (probe k) eqn:Ek.
  - cbn [fst snd]. unfold count_events.
    cbn [filter is_sleep is_connect is_popen List.length].
    split; [intros _; now repeat split|].
    split; [discriminate | split; lia].
  - pose proof (poll_spec 20 port probe (S k)) as H.
    destruct (poll 20 port probe (S k)) as [[ok ev] k'].
    cbn [fst snd] in H. destruct H as (I1 & I2 & I3 & I4).
    assert (Hk : (S k <= k' <= k + 21)%nat).
    { destruct ok; [destruct (I1 eq_refl) as (i & ? & _ & _ & -> & _)
                   | destruct (I2 eq_refl) as (_ & -> & _)]; lia. }
    unfold count_events in *.
    destruct ok; cbn [fst snd].
    + destruct (I1 eq_refl) as (i & Hi & Hp & Hj & Hk' & Hs).
      split; [discriminate | split; [intros _; split|split]].
      * cbn [app filter is_popen List.length]. now rewrite I4.
      * left. exists i. cbn [app filter is_sleep].
        repeat split; assumption.
      * cbn [app filter is_connect List.length]. rewrite I3. lia.
      * lia.
    + destruct (I2 eq_refl) as (Hj & Hk' & Hs).
      split; [discriminate | split; [intros _; split|split]].
      * cbn [app filter is_popen List.length].
        rewrite filter_app, length_app, I4. reflexivity.
      * right. cbn [app filter is_sleep].
        rewrite filter_app, length_app, Hs.
        split; [exact Hj | split; reflexivity].
      * cbn [app filter is_connect List.length].
        rewrite filter_app, length_app, I3. cbn. lia.
      * lia.
Qed.

Lemma start_server_protocol_witness :
  let probe := fun k : nat => (3 <=? k)%nat in
  let r := _start_server 8888 "web" probe 0 in
  count_events is_popen (snd (fst r)) = 1%nat
  /\ ((exists i, (i < 20)%nat /\ probe (1 + i)%nat = true
                 /\ (forall j, (j < i)%nat -> probe (1 + j)%nat = false)
                 /\ count_events is_sleep (snd (fst r)) = i
                 /\ fst (fst r)
                    = JObj [("ok", JBool true);
                            ("alreadyRunning", JBool false)]%string)
      \/ ((forall j, (j < 20)%nat -> probe (1 + j)%nat = false)
          /\ count_events is_sleep (snd (fst r)) = 20%nat
          /\ fst (fst r)
             = JObj [("ok", JBool false);
                     ("error", JStr "Server did not start")]%string)).
Proof.
  intros probe r.
  apply (proj1 (proj2 (start_server_protocol 8888 "web"
                         (fun k : nat => (3 <=? k)%nat) 0))).
  reflexivity.
Defined.



Section Handling.
Context {J : JsonLib}.


End Handling.

